(** * Display device handling: configuration parsing and the revert/retry policy

    A shallow embedding of [src/display_device.cpp].

    - C++ [unsigned int] and [int] values are integers of [Z]; range checks
      and conversions are written out where the source performs them.
    - [std::string] is [string] (a sequence of 8-bit characters).
    - A function that fills an output reference takes the previous content
      of the reference and returns the new one next to its [bool] result.
    - A [try]/[catch] block is a match on a sum whose right side is the
      exception thrown.
    - Log statements are not part of the model. *)

From Stdlib Require Import ZArith List String Ascii Bool Lia.
Import ListNotations.

Open Scope string_scope.
Open Scope Z_scope.

(** ** Characters and strings *)

(** [std::isspace] in the classic locale, as used by [boost::algorithm::trim_copy]. *)
Definition is_space (c : ascii) : bool :=
  let n := N_of_ascii c in
  (((9 <=? n) && (n <=? 13)) || (n =? 32))%N.

(** The character class [\d] of [std::regex]. *)
Definition is_digit (c : ascii) : bool :=
  let n := N_of_ascii c in
  ((48 <=? n) && (n <=? 57))%N.

(** The predicate [is_zero] local to [parse_refresh_rate_string]. *)
Definition is_zero (character : ascii) : bool :=
  Ascii.eqb character "0".

Definition empty (s : string) : bool :=
  match s with
  | EmptyString => true
  | String _ _ => false
  end.

(** [boost::algorithm::trim_left_copy_if]. *)
Fixpoint trim_left_copy_if (s : string) (p : ascii -> bool) : string :=
  match s with
  | EmptyString => EmptyString
  | String c rest => if p c then trim_left_copy_if rest p else s
  end.

(** [boost::algorithm::trim_right_copy_if]. *)
Fixpoint trim_right_copy_if (s : string) (p : ascii -> bool) : string :=
  match s with
  | EmptyString => EmptyString
  | String c rest =>
      let kept := trim_right_copy_if rest p in
      if empty kept && p c then EmptyString else String c kept
  end.

(** [boost::algorithm::trim_copy]: white space removed on both sides. *)
Definition trim_copy (s : string) : string :=
  trim_right_copy_if (trim_left_copy_if s is_space) is_space.

(** Every character is a decimal digit. *)
Fixpoint all_digits (s : string) : bool :=
  match s with
  | EmptyString => true
  | String c rest => is_digit c && all_digits rest
  end.

(** A non-empty run of decimal digits: what a group [(\d+)] captures. *)
Definition digit_group (s : string) : Prop :=
  empty s = false /\ all_digits s = true.

(** The longest prefix of digits, and what follows it. *)
Fixpoint take_digits (s : string) : string * string :=
  match s with
  | EmptyString => (EmptyString, EmptyString)
  | String c rest =>
      if is_digit c
      then let (digits, tail) := take_digits rest in (String c digits, tail)
      else (EmptyString, s)
  end.

Definition digit_value (c : ascii) : Z :=
  Z.of_N (N_of_ascii c) - 48.

(** The number a digit string denotes in base ten, most significant digit first. *)
Fixpoint decimal_value (acc : Z) (s : string) : Z :=
  match s with
  | EmptyString => acc
  | String c rest => decimal_value (10 * acc + digit_value c) rest
  end.

(** An optional sign in front of a number: whether it is a minus, and the rest. *)
Definition take_sign (s : string) : bool * string :=
  match s with
  | String c rest =>
      if Ascii.eqb c "-" then (true, rest)
      else if Ascii.eqb c "+" then (false, rest)
      else (false, s)
  | EmptyString => (false, s)
  end.

(** The head of a string is not a digit (or there is no head). *)
Definition no_leading_digit (s : string) : Prop :=
  match s with
  | EmptyString => True
  | String c _ => is_digit c = false
  end.

(** The integer part as [parse_refresh_rate_string] reads it: leading zeros
    removed, one digit kept. *)
Definition integer_digits (match_1 : string) : string :=
  if empty (trim_left_copy_if match_1 is_zero) then "0"
  else trim_left_copy_if match_1 is_zero.

(** The fractional part as it reads it: trailing zeros removed. *)
Definition fraction_digits (match_2 : string) : string :=
  trim_right_copy_if match_2 is_zero.

(** ** Regular expressions of the source *)

(** [std::regex_match] against [^(\d+)x(\d+)$]: the two captured groups. *)
Definition resolution_regex (s : string) : option (string * string) :=
  let (match_1, after_1) := take_digits s in
  match after_1 with
  | String c rest =>
      let (match_2, after_2) := take_digits rest in
      if negb (empty match_1) && Ascii.eqb c "x" && negb (empty match_2) && empty after_2
      then Some (match_1, match_2)
      else None
  | EmptyString => None
  end.

(** [std::regex_match] against [^(\d+)(?:\.(\d+))?$]: the first group, and the
    second one when it took part in the match ([match[2].matched]). *)
Definition refresh_rate_regex (s : string) : option (string * option string) :=
  let (match_1, after_1) := take_digits s in
  if empty match_1 then None
  else
    match after_1 with
    | EmptyString => Some (match_1, None)
    | String c rest =>
        let (match_2, after_2) := take_digits rest in
        if Ascii.eqb c "." && negb (empty match_2) && empty after_2
        then Some (match_1, Some match_2)
        else None
    end.

(** ** Integer conversions *)

Inductive exception : Type :=
| out_of_range
| invalid_argument.

Definition UINT_MAX : Z := 4294967295.

(** The width of [unsigned long] depends on the data model of the target. *)
Inductive data_model : Type :=
| LLP64   (* 64-bit Windows: 32-bit long *)
| LP64.   (* 64-bit Unix: 64-bit long *)

Definition ULONG_MAX (dm : data_model) : Z :=
  match dm with
  | LLP64 => 4294967295
  | LP64 => 18446744073709551615
  end.

(** ** External data types (libdisplaydevice and Sunshine configuration) *)

Record Resolution : Type := {
  m_width : Z;
  m_height : Z
}.

Record Rational : Type := {
  m_numerator : Z;
  m_denominator : Z
}.

Module HdrState.
Inductive t : Type := Disabled | Enabled.
End HdrState.

Module DevicePreparation.
Inductive t : Type := VerifyOnly | EnsureActive | EnsurePrimary | EnsureOnlyDisplay.
End DevicePreparation.

(** [m_refresh_rate] is an optional [FloatingPoint], a variant of [double] and
    [Rational]; this file only ever stores the [Rational] alternative. *)
Record SingleDisplayConfiguration : Type := {
  m_device_id : string;
  m_device_prep : DevicePreparation.t;
  m_resolution : option Resolution;
  m_refresh_rate : option Rational;
  m_hdr_state : option HdrState.t
}.

Module config_option_e.
Inductive t : Type := disabled | verify_only | ensure_active | ensure_primary | ensure_only_display.
End config_option_e.

Module resolution_option_e.
Inductive t : Type := disabled | automatic | manual.
End resolution_option_e.

Module refresh_rate_option_e.
Inductive t : Type := disabled | automatic | manual.
End refresh_rate_option_e.

Module hdr_option_e.
Inductive t : Type := disabled | automatic.
End hdr_option_e.

(** [config::video_t::dd_t]; durations are in milliseconds. *)
Record dd_t : Type := {
  configuration_option : config_option_e.t;
  resolution_option : resolution_option_e.t;
  manual_resolution : string;
  refresh_rate_option : refresh_rate_option_e.t;
  manual_refresh_rate : string;
  hdr_option : hdr_option_e.t;
  config_revert_delay : Z;
  wa_hdr_toggle : bool
}.

(** The fields of [config::video_t] this file reads. *)
Record video_t : Type := {
  dd : dd_t;
  output_name : string
}.

(** The fields of [rtsp_stream::launch_session_t] this file reads;
    [width], [height] and [fps] are C++ [int]. *)
Record launch_session_t : Type := {
  enable_sops : bool;
  width : Z;
  height : Z;
  fps : Z;
  enable_hdr : bool
}.

(** The result variant of [parse_configuration]. *)
Inductive parse_result : Type :=
| failed_to_parse_tag_t
| configuration_disabled_tag_t
| parsed_config (config : SingleDisplayConfiguration).

(** ** The parser *)

Section Parser.

(** The data model of the target fixes the range of [std::stoul]. *)
Variable dm : data_model.

(** What the conversion of a [double] above [UINT_MAX] to [unsigned int]
    leaves in the destination. The language leaves it open; the function
    is applied to the mathematical value that was to be converted. *)
Variable double_to_uint_out_of_range : Z -> Z.

(** [std::stoul] in base ten: white space, an optional sign, then the
    longest run of digits; what follows the digits is ignored. *)
Definition stoul (value : string) : Z + exception :=
  let (negative, text) := take_sign (trim_left_copy_if value is_space) in
  let digits := fst (take_digits text) in
  if empty digits then inr invalid_argument
  else
    let v := decimal_value 0 digits in
    if ULONG_MAX dm <? v then inr out_of_range
    else inl (if negative then (ULONG_MAX dm + 1 - v) mod (ULONG_MAX dm + 1) else v).

Definition stou (value : string) : Z + exception :=
  match stoul value with
  | inl result =>
      if UINT_MAX <? result then inr out_of_range else inl result
  | inr e => inr e
  end.

(** [static_cast<unsigned int>(std::pow(10, n))]: [std::pow] is taken as
    exact, and the conversion keeps every value an [unsigned int] holds. *)
Definition pow10_as_unsigned_int (n : nat) : Z :=
  let power := 10 ^ Z.of_nat n in
  if power <=? UINT_MAX then power else double_to_uint_out_of_range power.

Definition parse_resolution_string (input : string) (output : option Resolution)
  : bool * option Resolution :=
  let trimmed_input := trim_copy input in
  match resolution_regex trimmed_input with
  | Some (match_1, match_2) =>
      match stou match_1, stou match_2 with
      | inl w, inl h => (true, Some {| m_width := w; m_height := h |})
      | _, _ => (false, output)
      end
  | None =>
      if empty trimmed_input then (true, None) else (false, output)
  end.

Definition parse_refresh_rate_string (input : string) (output : option Rational)
  : bool * option Rational :=
  let trimmed_input := trim_copy input in
  match refresh_rate_regex trimmed_input with
  | Some (match_1, match_2) =>
      let trimmed_match_1 :=
        let t := trim_left_copy_if match_1 is_zero in
        if empty t then "0" else t in
      let trimmed_match_2 :=
        match match_2 with
        | Some m => trim_right_copy_if m is_zero
        | None => EmptyString
        end in
      if negb (empty trimmed_match_2) then
        let numerator_str := trimmed_match_1 ++ trimmed_match_2 in
        match stou numerator_str with
        | inl numerator =>
            let denominator := pow10_as_unsigned_int (String.length trimmed_match_2) in
            (true, Some {| m_numerator := numerator; m_denominator := denominator |})
        | inr _ => (false, output)
        end
      else
        match stou trimmed_match_1 with
        | inl numerator =>
            (true, Some {| m_numerator := numerator; m_denominator := 1 |})
        | inr _ => (false, output)
        end
  | None =>
      if empty trimmed_input then (true, None) else (false, output)
  end.

Definition parse_device_prep_option (video_config : video_t)
  : option DevicePreparation.t :=
  match configuration_option (dd video_config) with
  | config_option_e.verify_only => Some DevicePreparation.VerifyOnly
  | config_option_e.ensure_active => Some DevicePreparation.EnsureActive
  | config_option_e.ensure_primary => Some DevicePreparation.EnsurePrimary
  | config_option_e.ensure_only_display => Some DevicePreparation.EnsureOnlyDisplay
  | config_option_e.disabled => None
  end.

Definition set_resolution (config : SingleDisplayConfiguration) (r : option Resolution)
  : SingleDisplayConfiguration :=
  {| m_device_id := m_device_id config;
     m_device_prep := m_device_prep config;
     m_resolution := r;
     m_refresh_rate := m_refresh_rate config;
     m_hdr_state := m_hdr_state config |}.

Definition set_refresh_rate (config : SingleDisplayConfiguration) (r : option Rational)
  : SingleDisplayConfiguration :=
  {| m_device_id := m_device_id config;
     m_device_prep := m_device_prep config;
     m_resolution := m_resolution config;
     m_refresh_rate := r;
     m_hdr_state := m_hdr_state config |}.

Definition parse_resolution_option (video_config : video_t) (session : launch_session_t)
    (config : SingleDisplayConfiguration) : bool * SingleDisplayConfiguration :=
  match resolution_option (dd video_config) with
  | resolution_option_e.automatic =>
      if negb (enable_sops session) then (true, config)
      else if (0 <=? width session) && (0 <=? height session) then
        (true, set_resolution config
                 (Some {| m_width := width session; m_height := height session |}))
      else (false, config)
  | resolution_option_e.manual =>
      if negb (enable_sops session) then (true, config)
      else
        let (ok, resolution) :=
          parse_resolution_string (manual_resolution (dd video_config)) (m_resolution config) in
        let config := set_resolution config resolution in
        if negb ok then (false, config)
        else
          match m_resolution config with
          | None => (false, config)
          | Some _ => (true, config)
          end
  | resolution_option_e.disabled => (true, config)
  end.

Definition parse_refresh_rate_option (video_config : video_t) (session : launch_session_t)
    (config : SingleDisplayConfiguration) : bool * SingleDisplayConfiguration :=
  match refresh_rate_option (dd video_config) with
  | refresh_rate_option_e.automatic =>
      if 0 <=? fps session then
        (true, set_refresh_rate config
                 (Some {| m_numerator := fps session; m_denominator := 1 |}))
      else (false, config)
  | refresh_rate_option_e.manual =>
      let (ok, refresh_rate) :=
        parse_refresh_rate_string (manual_refresh_rate (dd video_config)) (m_refresh_rate config) in
      let config := set_refresh_rate config refresh_rate in
      if negb ok then (false, config)
      else
        match m_refresh_rate config with
        | None => (false, config)
        | Some _ => (true, config)
        end
  | refresh_rate_option_e.disabled => (true, config)
  end.

Definition parse_hdr_option (video_config : video_t) (session : launch_session_t)
  : option HdrState.t :=
  match hdr_option (dd video_config) with
  | hdr_option_e.automatic =>
      Some (if enable_hdr session then HdrState.Enabled else HdrState.Disabled)
  | hdr_option_e.disabled => None
  end.

Definition parse_configuration (video_config : video_t) (session : launch_session_t)
  : parse_result :=
  match parse_device_prep_option video_config with
  | None => configuration_disabled_tag_t
  | Some device_prep =>
      let config :=
        {| m_device_id := output_name video_config;
           m_device_prep := device_prep;
           m_resolution := None;
           m_refresh_rate := None;
           m_hdr_state := parse_hdr_option video_config session |} in
      let (ok, config) := parse_resolution_option video_config session config in
      if negb ok then failed_to_parse_tag_t
      else
        let (ok, config) := parse_refresh_rate_option video_config session config in
        if negb ok then failed_to_parse_tag_t
        else parsed_config config
  end.

End Parser.

(** ** The settings manager and the retry scheduler (libdisplaydevice) *)

Module ApplyResult.
(** Modelled from the spec: the result of [applySettings], declared in
    [display_device/settings_manager_interface.h]; section 6 of the
    specification lists success, the transient failure and a permanent failure. *)
Inductive t : Type := Ok | ApiTemporarilyUnavailable | PermanentFailure.

Definition eqb (a b : t) : bool :=
  match a, b with
  | Ok, Ok | ApiTemporarilyUnavailable, ApiTemporarilyUnavailable
  | PermanentFailure, PermanentFailure => true
  | _, _ => false
  end.
End ApplyResult.

(** Modelled from the spec: [SettingsManagerInterface], the consumed capability
    of section 6. [D] is the state of an implementation; an operation that may
    change the device returns the state it leaves behind. *)
Class SettingsManagerInterface (D : Type) : Type := {
  enumAvailableDevices : D -> list string;
  applySettings : D -> SingleDisplayConfiguration -> ApplyResult.t * D;
  revertSettings : D -> bool * D
}.

Module Execution.
(** Modelled from the spec: the two execution modes of section 5, "immediate"
    and "scheduled-only" ([SchedulerOptions::Execution]). *)
Inductive t : Type := Immediate | ScheduledOnly.
End Execution.

(** Modelled from the spec: [SchedulerOptions] of [display_device/retry_scheduler.h];
    [m_execution] defaults to [Immediate]. *)
Record SchedulerOptions : Type := {
  m_sleep_durations : list Z;
  m_execution : Execution.t
}.

(** The "revert config" algorithms. *)
Module revert_option_e.
Inductive t : Type :=
| try_once
| try_indefinitely
| try_indefinitely_with_delay.

Definition eqb (a b : t) : bool :=
  match a, b with
  | try_once, try_once
  | try_indefinitely, try_indefinitely
  | try_indefinitely_with_delay, try_indefinitely_with_delay => true
  | _, _ => false
  end.
End revert_option_e.

(** The two closures this file hands to the scheduler, with what they capture:
    the one of [revert_configuration_unlocked] and the one of [configure_display]. *)
Inductive retry_function : Type :=
| revert_function (try_once : bool)
| apply_function (config : SingleDisplayConfiguration).

(** What the program does, in the order it does it. *)
Inductive event : Type :=
| ev_lock                                         (* DD_DATA.mutex taken *)
| ev_unlock                                       (* DD_DATA.mutex released *)
| ev_config_revert_delay (ms : Z)                 (* DD_DATA.config_revert_delay assigned *)
| ev_sm_instance (engaged : bool)                 (* DD_DATA.sm_instance assigned; false is nullptr *)
| ev_make_settings_manager (created : bool)
| ev_enumAvailableDevices (available_devices : list string)
| ev_schedule (exec_fn : retry_function) (options : SchedulerOptions)
| ev_sleep (ms : Z)                               (* the timer loop waits *)
| ev_revertSettings (reverted : bool)
| ev_applySettings (config : SingleDisplayConfiguration) (result : ApplyResult.t)
| ev_requestStop
| ev_resetPersistence (result : bool).

Definition DEFAULT_RETRY_INTERVAL : Z := 5000.

Section Orchestrator.

Variable dm : data_model.
Variable double_to_uint_out_of_range : Z -> Z.

Context {D : Type} `{SettingsManagerInterface D}.

(** The settings manager of the platform: [Some] constructor under [_WIN32]
    (from the persistence file path and the HDR blank delay of the
    workarounds), [None] elsewhere. *)
Variable platform_settings_manager : option (string -> option Z -> D).

(** One run of a scheduled closure on the interface: the calls made, whether
    the stop token was asked to stop, and the interface afterwards. *)
Definition exec (exec_fn : retry_function) (settings_iface : D)
  : list event * bool * D :=
  match exec_fn with
  | revert_function try_once =>
      let (reverted, settings_iface) := revertSettings settings_iface in
      if reverted || try_once
      then ([ev_revertSettings reverted; ev_requestStop], true, settings_iface)
      else ([ev_revertSettings reverted], false, settings_iface)
  | apply_function config =>
      let (result, settings_iface) := applySettings settings_iface config in
      if negb (ApplyResult.eqb result ApplyResult.ApiTemporarilyUnavailable)
      then ([ev_applySettings config result; ev_requestStop], true, settings_iface)
      else ([ev_applySettings config result], false, settings_iface)
  end.

(** Modelled from the spec: [RetryScheduler<SettingsManagerInterface>] of
    [display_device/retry_scheduler.h], after section 5: the scheduler owns
    the interface and at most one retry loop, made of the closure to run and
    the sleep durations still to use. *)
Record RetryScheduler : Type := {
  m_iface : D;
  m_retry_function : option retry_function;
  m_pending_durations : list Z
}.

Definition stopped (iface : D) : RetryScheduler :=
  {| m_iface := iface; m_retry_function := None; m_pending_durations := [] |}.

(** Modelled from the spec: [RetryScheduler::schedule]. A new operation
    replaces the one in flight. Immediate mode runs the operation once in the
    calling thread before the timer loop is entered; scheduled-only mode
    waits out the first delay before any execution. The loop is entered only
    if the operation did not ask to stop. *)
Definition schedule (exec_fn : retry_function) (options : SchedulerOptions)
    (scheduler : RetryScheduler) : list event * RetryScheduler :=
  match m_execution options with
  | Execution.Immediate =>
      let '(calls, stop_requested, iface) := exec exec_fn (m_iface scheduler) in
      (calls,
       if stop_requested then stopped iface
       else {| m_iface := iface;
               m_retry_function := Some exec_fn;
               m_pending_durations := m_sleep_durations options |})
  | Execution.ScheduledOnly =>
      ([], {| m_iface := m_iface scheduler;
              m_retry_function := Some exec_fn;
              m_pending_durations := m_sleep_durations options |})
  end.

(** Modelled from the spec: the sleep before the next attempt. The durations
    are used in order and the last one repeats. *)
Definition next_duration (durations : list Z) : Z * list Z :=
  match durations with
  | [] => (0, [])
  | [d] => (d, [d])
  | d :: rest => (d, rest)
  end.

(** Modelled from the spec: one round of the timer loop of the scheduler:
    sleep, run the operation, leave the loop when it asked to stop. Without
    an operation in flight nothing happens. *)
Definition timer_iteration (scheduler : RetryScheduler) : list event * RetryScheduler :=
  match m_retry_function scheduler with
  | None => ([], scheduler)
  | Some exec_fn =>
      let (d, rest) := next_duration (m_pending_durations scheduler) in
      let '(calls, stop_requested, iface) := exec exec_fn (m_iface scheduler) in
      (ev_sleep d :: calls,
       if stop_requested then stopped iface
       else {| m_iface := iface;
               m_retry_function := Some exec_fn;
               m_pending_durations := rest |})
  end.

(** The global [DD_DATA], and the record of what was done so far. *)
Record world : Type := {
  DD_DATA_config_revert_delay : Z;
  DD_DATA_sm_instance : option RetryScheduler;
  trace : list event
}.

(** Computations on the world. *)
Definition M (A : Type) : Type := world -> A * world.

Definition ret {A : Type} (a : A) : M A := fun w => (a, w).

Definition bind {A B : Type} (c : M A) (k : A -> M B) : M B :=
  fun w => let (a, w') := c w in k a w'.

Notation "x <- c ;; k" := (bind c (fun x => k))
  (at level 61, c at next level, right associativity).
Notation "c ;; k" := (bind c (fun _ => k))
  (at level 61, right associativity).

Definition emit (e : event) : M unit :=
  fun w => (tt, {| DD_DATA_config_revert_delay := DD_DATA_config_revert_delay w;
                   DD_DATA_sm_instance := DD_DATA_sm_instance w;
                   trace := (trace w ++ [e])%list |}).

Fixpoint emit_all (es : list event) : M unit :=
  match es with
  | [] => ret tt
  | e :: rest => emit e ;; emit_all rest
  end.

Definition get_config_revert_delay : M Z :=
  fun w => (DD_DATA_config_revert_delay w, w).

Definition get_sm_instance : M (option RetryScheduler) :=
  fun w => (DD_DATA_sm_instance w, w).

Definition put_sm_instance (sm : option RetryScheduler) : M unit :=
  fun w => (tt, {| DD_DATA_config_revert_delay := DD_DATA_config_revert_delay w;
                   DD_DATA_sm_instance := sm;
                   trace := trace w |}).

Definition set_config_revert_delay (ms : Z) : M unit :=
  fun w => emit (ev_config_revert_delay ms)
             {| DD_DATA_config_revert_delay := ms;
                DD_DATA_sm_instance := DD_DATA_sm_instance w;
                trace := trace w |}.

(** An assignment to [DD_DATA.sm_instance]; the scheduler it held is destroyed. *)
Definition set_sm_instance (sm : option RetryScheduler) : M unit :=
  emit (ev_sm_instance (match sm with Some _ => true | None => false end)) ;;
  put_sm_instance sm.

Definition lock : M unit := emit ev_lock.
Definition unlock : M unit := emit ev_unlock.

(** [DD_DATA.sm_instance->schedule(exec_fn, options)] on an engaged pointer. *)
Definition sm_instance_schedule (scheduler : RetryScheduler)
    (exec_fn : retry_function) (options : SchedulerOptions) : M unit :=
  emit (ev_schedule exec_fn options) ;;
  let (calls, scheduler') := schedule exec_fn options scheduler in
  emit_all calls ;;
  put_sm_instance (Some scheduler').

(** Modelled from the spec: [RetryScheduler::execute] with a read-only query:
    the call is made at once on the interface and its value is returned; the
    timer loop is not involved. *)
Definition sm_instance_execute {A : Type} (scheduler : RetryScheduler)
    (query : D -> A) : M A :=
  ret (query (m_iface scheduler)).

(** Modelled from the spec: the timer thread of the scheduler gets to run one
    round of its loop. *)
Definition timer_round : M unit :=
  sm <- get_sm_instance ;;
  match sm with
  | None => ret tt
  | Some scheduler =>
      let (events, scheduler') := timer_iteration scheduler in
      emit_all events ;;
      put_sm_instance (Some scheduler')
  end.

Fixpoint timer_rounds (n : nat) : M unit :=
  match n with
  | O => ret tt
  | S n' => timer_round ;; timer_rounds n'
  end.

Definition make_settings_manager (persistence_filepath : string) (video_config : video_t)
  : M (option D) :=
  let settings_manager :=
    match platform_settings_manager with
    | Some make =>
        Some (make persistence_filepath
                (if wa_hdr_toggle (dd video_config) then Some 500 else None))
    | None => None
    end in
  emit (ev_make_settings_manager
          (match settings_manager with Some _ => true | None => false end)) ;;
  ret settings_manager.

Definition revert_configuration_unlocked (option : revert_option_e.t) : M unit :=
  sm <- get_sm_instance ;;
  match sm with
  | None => ret tt
  | Some scheduler =>
      delay <- get_config_revert_delay ;;
      let scheduler_option :=
        if revert_option_e.eqb option revert_option_e.try_indefinitely_with_delay && (0 <? delay)
        then {| m_sleep_durations := [delay; DEFAULT_RETRY_INTERVAL];
                m_execution := Execution.ScheduledOnly |}
        else {| m_sleep_durations := [DEFAULT_RETRY_INTERVAL];
                m_execution := Execution.Immediate |} in
      sm_instance_schedule scheduler
        (revert_function (revert_option_e.eqb option revert_option_e.try_once)) scheduler_option
  end.

Definition init (persistence_filepath : string) (video_config : video_t) : M unit :=
  lock ;;
  revert_configuration_unlocked revert_option_e.try_once ;;
  set_config_revert_delay (config_revert_delay (dd video_config)) ;;
  set_sm_instance None ;;
  settings_manager <- make_settings_manager persistence_filepath video_config ;;
  match settings_manager with
  | Some iface =>
      set_sm_instance (Some (stopped iface)) ;;
      available_devices <- sm_instance_execute (stopped iface) enumAvailableDevices ;;
      emit (ev_enumAvailableDevices available_devices) ;;
      revert_configuration_unlocked revert_option_e.try_indefinitely
  | None => ret tt
  end ;;
  unlock.

(** The destructor of the [deinit_t] that [init] returns. *)
Definition deinit : M unit :=
  lock ;;
  revert_configuration_unlocked revert_option_e.try_once ;;
  set_sm_instance None ;;
  unlock.

(** [configure_display(const SingleDisplayConfiguration &)]. *)
Definition configure_display_config (config : SingleDisplayConfiguration) : M unit :=
  lock ;;
  sm <- get_sm_instance ;;
  match sm with
  | None => ret tt
  | Some scheduler =>
      sm_instance_schedule scheduler (apply_function config)
        {| m_sleep_durations := [DEFAULT_RETRY_INTERVAL];
           m_execution := Execution.Immediate |}
  end ;;
  unlock.

Definition revert_configuration : M unit :=
  lock ;;
  revert_configuration_unlocked revert_option_e.try_indefinitely_with_delay ;;
  unlock.

(** [configure_display(const config::video_t &, const launch_session_t &)]. *)
Definition configure_display (video_config : video_t) (session : launch_session_t) : M unit :=
  match parse_configuration dm double_to_uint_out_of_range video_config session with
  | parsed_config parsed => configure_display_config parsed
  | configuration_disabled_tag_t => revert_configuration
  | failed_to_parse_tag_t => ret tt
  end.

End Orchestrator.

Arguments RetryScheduler D : clear implicits.
Arguments world D : clear implicits.
Arguments M D A : clear implicits.

(** ** Observations on a record of events *)

(** The durations the timer loop slept, in order. *)
Fixpoint sleeps (es : list event) : list Z :=
  match es with
  | [] => []
  | ev_sleep ms :: rest => ms :: sleeps rest
  | _ :: rest => sleeps rest
  end.

(** The number of attempts: calls of [applySettings] or [revertSettings]. *)
Fixpoint attempts (es : list event) : nat :=
  match es with
  | [] => O
  | ev_revertSettings _ :: rest => S (attempts rest)
  | ev_applySettings _ _ :: rest => S (attempts rest)
  | _ :: rest => attempts rest
  end.

(** The number of stop requests. *)
Fixpoint stop_requests (es : list event) : nat :=
  match es with
  | [] => O
  | ev_requestStop :: rest => S (stop_requests rest)
  | _ :: rest => stop_requests rest
  end.

(** The first [n] sleeps of a timer loop that starts with the given durations. *)
Fixpoint duration_sequence (first : Z) (then_every : Z) (n : nat) : list Z :=
  match n with
  | O => []
  | S n' => first :: duration_sequence then_every then_every n'
  end.

(** ** A settings manager that follows a script

    The results of the successive [applySettings] and [revertSettings] calls
    are given in advance; past the end of a script, apply succeeds and revert
    fails. *)
Record scripted : Type := {
  apply_script : list ApplyResult.t;
  revert_script : list bool
}.

#[export] Instance scripted_settings_manager : SettingsManagerInterface scripted := {
  enumAvailableDevices := fun _ => [];
  applySettings := fun d _ =>
    match apply_script d with
    | [] => (ApplyResult.Ok, d)
    | r :: rest => (r, {| apply_script := rest; revert_script := revert_script d |})
    end;
  revertSettings := fun d =>
    match revert_script d with
    | [] => (false, d)
    | r :: rest => (r, {| apply_script := apply_script d; revert_script := rest |})
    end
}.

(** ** Sample inputs *)

Definition sample_dd (configuration : config_option_e.t)
    (resolution : resolution_option_e.t) (resolution_text : string)
    (refresh_rate : refresh_rate_option_e.t) (refresh_rate_text : string) : dd_t :=
  {| configuration_option := configuration;
     resolution_option := resolution;
     manual_resolution := resolution_text;
     refresh_rate_option := refresh_rate;
     manual_refresh_rate := refresh_rate_text;
     hdr_option := hdr_option_e.automatic;
     config_revert_delay := 3000;
     wa_hdr_toggle := false |}.

Definition sample_video (configuration : config_option_e.t)
    (resolution : resolution_option_e.t) (resolution_text : string)
    (refresh_rate : refresh_rate_option_e.t) (refresh_rate_text : string) : video_t :=
  {| dd := sample_dd configuration resolution resolution_text refresh_rate refresh_rate_text;
     output_name := "DISPLAY1" |}.

Definition sample_session (sops : bool) : launch_session_t :=
  {| enable_sops := sops; width := 2560; height := 1440; fps := 120; enable_hdr := true |}.

Definition sample_config : SingleDisplayConfiguration :=
  {| m_device_id := "DISPLAY1";
     m_device_prep := DevicePreparation.EnsureActive;
     m_resolution := Some {| m_width := 2560; m_height := 1440 |};
     m_refresh_rate := Some {| m_numerator := 120; m_denominator := 1 |};
     m_hdr_state := Some HdrState.Enabled |}.

(** A conversion of out-of-range values that keeps the low 32 bits. *)
Definition wrap_uint (x : Z) : Z := x mod 2 ^ 32.

(** A world with a scripted settings manager behind an idle scheduler. *)
Definition sample_world (delay : Z) (applies : list ApplyResult.t) (reverts : list bool)
  : world scripted :=
  {| DD_DATA_config_revert_delay := delay;
     DD_DATA_sm_instance :=
       Some (stopped {| apply_script := applies; revert_script := reverts |});
     trace := [] |}.

(** ** Further notions used in the statements *)

(** Every character of the string satisfies [p]. *)
Fixpoint all_chars (p : ascii -> bool) (s : string) : bool :=
  match s with
  | EmptyString => true
  | String c rest => p c && all_chars p rest
  end.

(** The range of a C++ [int], the type of the session's [width], [height] and [fps]. *)
Definition INT_MIN : Z := -2147483648.
Definition INT_MAX : Z := 2147483647.

Definition is_int (x : Z) : Prop := INT_MIN <= x <= INT_MAX.

(** ** The remaining operations of the orchestrator *)

(** A top-level call into this file, or a round of the scheduler's timer. *)
Inductive operation : Type :=
| op_init (persistence_filepath : string) (video_config : video_t)
| op_deinit
| op_map_output_name (output_name : string)
| op_configure_display (video_config : video_t) (session : launch_session_t)
| op_configure_display_config (config : SingleDisplayConfiguration)
| op_revert_configuration
| op_reset_persistence
| op_timer_round.

Definition is_init (op : operation) : bool :=
  match op with
  | op_init _ _ => true
  | _ => false
  end.

Section OrchestratorOperations.

Variable dm : data_model.
Variable double_to_uint_out_of_range : Z -> Z.

Context {D : Type} `{SettingsManagerInterface D}.

Variable platform_settings_manager : option (string -> option Z -> D).

(** Modelled from the spec: the two operations of [SettingsManagerInterface]
    that the retry closures do not use, the read-only name lookup and the
    reset of the persisted state (section 6). *)
Variable getDisplayName : D -> string -> string.
Variable resetPersistence : D -> bool * D.

Notation "x <- c ;; k" := (bind c (fun x => k))
  (at level 61, c at next level, right associativity).
Notation "c ;; k" := (bind c (fun _ => k))
  (at level 61, right associativity).

Definition map_output_name (output_name : string) : M D string :=
  lock ;;
  sm <- get_sm_instance ;;
  result <-
    match sm with
    | None => ret output_name
    | Some scheduler =>
        sm_instance_execute scheduler (fun settings_iface => getDisplayName settings_iface output_name)
    end ;;
  unlock ;;
  ret result.

(** Modelled from the spec: [RetryScheduler::execute] with a closure that
    takes the stop token: run at once in the calling thread; a stop request
    ends the retry loop in flight. The closure of [reset_persistence] asks to
    stop and then resets the persisted state. *)
Definition sm_instance_execute_reset (scheduler : RetryScheduler D) : M D bool :=
  emit ev_requestStop ;;
  let (result, iface) := resetPersistence (m_iface scheduler) in
  emit (ev_resetPersistence result) ;;
  put_sm_instance (Some (stopped iface)) ;;
  ret result.

Definition reset_persistence : M D bool :=
  lock ;;
  sm <- get_sm_instance ;;
  result <-
    match sm with
    | None => ret true
    | Some scheduler => sm_instance_execute_reset scheduler
    end ;;
  unlock ;;
  ret result.

Definition run_operation (op : operation) : M D unit :=
  match op with
  | op_init persistence_filepath video_config =>
      init platform_settings_manager persistence_filepath video_config
  | op_deinit => deinit
  | op_map_output_name output_name => map_output_name output_name ;; ret tt
  | op_configure_display video_config session =>
      configure_display dm double_to_uint_out_of_range video_config session
  | op_configure_display_config config => configure_display_config config
  | op_revert_configuration => revert_configuration
  | op_reset_persistence => reset_persistence ;; ret tt
  | op_timer_round => timer_round
  end.

Fixpoint run_operations (ops : list operation) : M D unit :=
  match ops with
  | [] => ret tt
  | op :: rest => run_operation op ;; run_operations rest
  end.

(** The interface after [n] runs of a scheduled closure. *)
Fixpoint iface_after (exec_fn : retry_function) (iface : D) (n : nat) : D :=
  match n with
  | O => iface
  | S n' => iface_after exec_fn (snd (exec exec_fn iface)) n'
  end.

End OrchestratorOperations.

(** The state of the non-recursive [DD_DATA.mutex] after a record of events,
    starting held or not: [None] when the mutex is taken while held or
    released while free. *)
Fixpoint mutex_after (held : bool) (es : list event) : option bool :=
  match es with
  | [] => Some held
  | ev_lock :: rest => if held then None else mutex_after true rest
  | ev_unlock :: rest => if held then mutex_after false rest else None
  | _ :: rest => mutex_after held rest
  end.

(** The events a timer loop running the closure [exec_fn] can add. *)
Definition timer_event_of (exec_fn : retry_function) (e : event) : Prop :=
  match e with
  | ev_sleep _ => True
  | ev_requestStop => True
  | ev_revertSettings _ => exists try_once, exec_fn = revert_function try_once
  | ev_applySettings config _ => exec_fn = apply_function config
  | _ => False
  end.

(** ** The audio context *)

(** What [sunshine_audio_context_t] does to the outside. *)
Inductive audio_event : Type :=
| au_get_audio_ctx_ref       (* an [audio_context_t] is constructed *)
| au_drop_audio_ctx_ref      (* an [audio_context_t] is destroyed *)
| au_sleep_for (ms : Z).

Section AudioContext.

(** The type of [audio::get_audio_ctx_ref()], and the reference it returns. *)
Variable audio_ctx_ref_t : Type.
Variable get_audio_ctx_ref : audio_ctx_ref_t.

Record audio_context_t : Type := {
  audio_ctx_ref : audio_ctx_ref_t
}.

(** The member [captured_context], and the record of events. *)
Record sunshine_audio_context_t : Type := {
  captured_context : option audio_context_t;
  audio_trace : list audio_event
}.

(** The new context is constructed first; assigning it releases the one held. *)
Definition capture (this : sunshine_audio_context_t) : bool * sunshine_audio_context_t :=
  (true,
   {| captured_context := Some {| audio_ctx_ref := get_audio_ctx_ref |};
      audio_trace :=
        (audio_trace this ++ au_get_audio_ctx_ref ::
           match captured_context this with
           | Some _ => [au_drop_audio_ctx_ref]
           | None => []
           end)%list |}).

Definition isCaptured (this : sunshine_audio_context_t) : bool :=
  match captured_context this with
  | Some _ => true
  | None => false
  end.

Definition release (this : sunshine_audio_context_t) : sunshine_audio_context_t :=
  {| captured_context := None;
     audio_trace :=
       (audio_trace this ++ au_sleep_for 500 ::
          match captured_context this with
          | Some _ => [au_drop_audio_ctx_ref]
          | None => []
          end)%list |}.

(** The calls the settings manager can make on the audio context. *)
Inductive audio_call : Type :=
| call_capture
| call_isCaptured
| call_release.

Definition audio_step (this : sunshine_audio_context_t) (call : audio_call)
  : sunshine_audio_context_t :=
  match call with
  | call_capture => snd (capture this)
  | call_isCaptured => this
  | call_release => release this
  end.

Definition audio_run (calls : list audio_call) (this : sunshine_audio_context_t)
  : sunshine_audio_context_t :=
  fold_left audio_step calls this.

End AudioContext.

Arguments captured_context {audio_ctx_ref_t}.
Arguments audio_trace {audio_ctx_ref_t}.
Arguments capture {audio_ctx_ref_t}.
Arguments isCaptured {audio_ctx_ref_t}.
Arguments release {audio_ctx_ref_t}.
Arguments audio_step {audio_ctx_ref_t}.
Arguments audio_run {audio_ctx_ref_t}.

(** The references acquired and not yet dropped. *)
Fixpoint audio_refs_held (es : list audio_event) : Z :=
  match es with
  | [] => 0
  | au_get_audio_ctx_ref :: rest => 1 + audio_refs_held rest
  | au_drop_audio_ctx_ref :: rest => audio_refs_held rest - 1
  | au_sleep_for _ :: rest => audio_refs_held rest
  end.

(** The last call that changes the context, if any. *)
Fixpoint last_change (calls : list audio_call) (seen : option audio_call)
  : option audio_call :=
  match calls with
  | [] => seen
  | call_isCaptured :: rest => last_change rest seen
  | call :: rest => last_change rest (Some call)
  end.

(** A computation only appends events, and what it appends satisfies [P]. *)
Definition adds_events {D A : Type} (P : list event -> Prop) (c : M D A) : Prop :=
  forall w : world D, exists es, trace (snd (c w)) = (trace w ++ es)%list /\ P es.

(** A record of events that does not touch the mutex. *)
Definition lock_free (es : list event) : Prop :=
  forall held, mutex_after held es = Some held.

(** A record of events that takes the mutex only when free, releases it only
    when held, and leaves it free. *)
Definition bracketed (es : list event) : Prop :=
  mutex_after false es = Some false.

(** A record of events that takes the mutex from one state to another. *)
Definition mutex_from_to (before after : bool) (es : list event) : Prop :=
  mutex_after before es = Some after.

(** The closures handed to the scheduler, in order. *)
Fixpoint scheduled (es : list event) : list retry_function :=
  match es with
  | [] => []
  | ev_schedule exec_fn _ :: rest => exec_fn :: scheduled rest
  | _ :: rest => scheduled rest
  end.

(** A record of events without any use of the scheduler or of the settings
    manager: nothing scheduled, no attempt, no sleep, no stop request. *)
Definition idle (es : list event) : Prop :=
  scheduled es = [] /\ attempts es = O /\ sleeps es = [] /\ stop_requests es = O.

(** ** The events of a revert loop *)

Section RevertLoop.

Context {D : Type} `{SettingsManagerInterface D}.

(** [n] rounds of a timer loop that reverts, as events: every round sleeps
    and then calls [revertSettings]; the round in which the revert succeeds
    asks to stop and is the last one, and no round is left out before it. The
    first sleep is [first], the later ones are [every]. *)
Fixpoint revert_loop_events (first every : Z) (iface : D) (n : nat) : list event :=
  match n with
  | O => []
  | S n' =>
      let (reverted, iface') := revertSettings iface in
      ev_sleep first :: ev_revertSettings reverted ::
        (if reverted then [ev_requestStop]
         else revert_loop_events every every iface' n')
  end.

End RevertLoop.

(** A revert loop in which the revert fails [n] times and then succeeds. *)
Fixpoint failed_then_reverted (first every : Z) (n : nat) : list event :=
  match n with
  | O => [ev_sleep first; ev_revertSettings true; ev_requestStop]
  | S n' => ev_sleep first :: ev_revertSettings false :: failed_then_reverted every every n'
  end.

(** * Properties *)

(** ** Characters and strings *)

Lemma digit_not_special (c : ascii) :
  is_digit c = true ->
  is_space c = false /\ Ascii.eqb c "x" = false /\ Ascii.eqb c "." = false /\
  Ascii.eqb c "-" = false /\ Ascii.eqb c "+" = false.
Proof.
  destruct c as [[] [] [] [] [] [] [] []]; vm_compute; intro E;
    try discriminate E; repeat split.
Qed.

Lemma digit_value_range (c : ascii) :
  is_digit c = true -> 0 <= digit_value c <= 9.
Proof.
  destruct c as [[] [] [] [] [] [] [] []]; vm_compute; intro E;
    try discriminate E; split; intro; discriminate.
Qed.

Lemma empty_true (s : string) : empty s = true <-> s = "".
Proof. destruct s; simpl; split; intro E; try reflexivity; discriminate E. Qed.

Lemma empty_false (s : string) : empty s = false <-> s <> "".
Proof.
  destruct s; simpl; split; intro E; try discriminate E; try reflexivity.
  - now contradiction E.
  - discriminate.
Qed.

Lemma append_empty_r (s : string) : (s ++ "")%string = s.
Proof. induction s as [|c s IH]; simpl; [reflexivity | now rewrite IH]. Qed.

Lemma append_assoc (a b c : string) : ((a ++ b) ++ c = a ++ (b ++ c))%string.
Proof. induction a as [|x a IH]; simpl; [reflexivity | now rewrite IH]. Qed.

Lemma all_digits_append (a b : string) :
  all_digits (a ++ b) = all_digits a && all_digits b.
Proof.
  induction a as [|c a IH]; simpl; [reflexivity |].
  now rewrite IH, andb_assoc.
Qed.

Lemma all_digits_trim_left (s : string) (p : ascii -> bool) :
  all_digits s = true -> all_digits (trim_left_copy_if s p) = true.
Proof.
  induction s as [|c s IH]; simpl; [easy |].
  intro E. destruct (p c); [| exact E].
  apply andb_true_iff in E. now apply IH.
Qed.

Lemma all_digits_trim_right (s : string) (p : ascii -> bool) :
  all_digits s = true -> all_digits (trim_right_copy_if s p) = true.
Proof.
  induction s as [|c s IH]; simpl; [easy |].
  intro E. apply andb_true_iff in E as [Ec Es].
  destruct (empty (trim_right_copy_if s p) && p c); simpl; [reflexivity |].
  now rewrite Ec, IH.
Qed.

Lemma take_digits_append (d rest : string) :
  all_digits d = true -> no_leading_digit rest ->
  take_digits (d ++ rest) = (d, rest).
Proof.
  intros Hd Hr. induction d as [|c d IH]; simpl in *.
  - destruct rest as [|c rest]; simpl in *; [reflexivity | now rewrite Hr].
  - apply andb_true_iff in Hd as [Hc Hd]. now rewrite Hc, IH.
Qed.

Lemma take_digits_spec (s d rest : string) :
  take_digits s = (d, rest) ->
  s = (d ++ rest)%string /\ all_digits d = true /\ no_leading_digit rest.
Proof.
  revert d rest. induction s as [|c s IH]; simpl; intros d rest E.
  - inversion E; subst. simpl. auto.
  - destruct (is_digit c) eqn:Ec.
    + destruct (take_digits s) as [d' r'] eqn:Et. inversion E; subst.
      destruct (IH _ _ eq_refl) as (-> & Hd & Hr).
      simpl. rewrite Ec, Hd. auto.
    + inversion E; subst. simpl. auto.
Qed.

Lemma take_digits_all (d : string) :
  all_digits d = true -> take_digits d = (d, "").
Proof.
  intro Hd. rewrite <- (append_empty_r d) at 1.
  now apply take_digits_append.
Qed.

Lemma decimal_value_lower (s : string) (acc : Z) :
  all_digits s = true -> 0 <= acc -> acc <= decimal_value acc s.
Proof.
  revert acc. induction s as [|c s IH]; cbn [decimal_value all_digits];
    intros acc Hs Hacc; [lia |].
  apply andb_true_iff in Hs as [Hc Hs].
  pose proof (digit_value_range c Hc).
  specialize (IH (10 * acc + digit_value c) Hs). lia.
Qed.

Lemma trim_right_keeps_digits (a h : string) :
  digit_group h -> trim_right_copy_if (a ++ h) is_space = (a ++ h)%string.
Proof.
  intros [Hne Hd]. induction a as [|c a IH].
  - cbn [append]. induction h as [|c h IH]; [discriminate Hne |].
    cbn [all_digits] in Hd. apply andb_true_iff in Hd as [Hc Hd].
    cbn [trim_right_copy_if]. destruct h as [|c' h].
    + cbn. destruct (digit_not_special c Hc) as [-> _]. reflexivity.
    + rewrite IH by (try reflexivity; assumption). reflexivity.
  - cbn [append trim_right_copy_if]. rewrite IH.
    destruct (a ++ h)%string eqn:E; [| reflexivity].
    destruct a; [cbn in E; subst; discriminate Hne | discriminate E].
Qed.

(** White space trimming leaves a string [<digits>x<digits>] as it is. *)
Lemma trim_copy_resolution (w h : string) :
  digit_group w -> digit_group h ->
  trim_copy (w ++ "x" ++ h) = (w ++ "x" ++ h)%string.
Proof.
  intros [Nw Dw] Hh. unfold trim_copy. rewrite <- append_assoc.
  destruct w as [|c w]; [discriminate Nw |].
  cbn [all_digits] in Dw. apply andb_true_iff in Dw as [Hc _].
  cbn [append trim_left_copy_if]. destruct (digit_not_special c Hc) as [-> _].
  apply (trim_right_keeps_digits (String c (w ++ "x")) h Hh).
Qed.

(** ** Integer conversions *)

Lemma UINT_MAX_le_ULONG_MAX (dm : data_model) : UINT_MAX <= ULONG_MAX dm.
Proof. destruct dm; vm_compute; discriminate. Qed.

(** On a group of digits [stou] reads the decimal value, and throws
    [out_of_range] exactly above [UINT_MAX], whatever the width of [long]. *)
Lemma stou_digit_group (dm : data_model) (s : string) :
  digit_group s ->
  stou dm s =
    if UINT_MAX <? decimal_value 0 s then inr out_of_range
    else inl (decimal_value 0 s).
Proof.
  intros [Hne Hd]. unfold stou, stoul.
  destruct s as [|c s]; [discriminate Hne |].
  simpl in Hd. apply andb_true_iff in Hd as [Hc Hs].
  destruct (digit_not_special c Hc) as (Hsp & _ & _ & Hm & Hp).
  cbn [trim_left_copy_if]. rewrite Hsp.
  cbn [take_sign]. rewrite Hm, Hp.
  assert (Ht : take_digits (String c s) = (String c s, "")).
  { apply take_digits_all. simpl. now rewrite Hc, Hs. }
  rewrite Ht. cbn [fst empty].
  assert (Hv : 0 <= decimal_value 0 (String c s)).
  { apply decimal_value_lower; [simpl; now rewrite Hc, Hs | lia]. }
  pose proof (UINT_MAX_le_ULONG_MAX dm) as Hle.
  destruct (ULONG_MAX dm <? decimal_value 0 (String c s)) eqn:E1.
  - apply Z.ltb_lt in E1.
    destruct (UINT_MAX <? decimal_value 0 (String c s)) eqn:E2; [reflexivity |].
    apply Z.ltb_ge in E2. lia.
  - reflexivity.
Qed.

(** ** The regular expressions *)

(** [resolution_regex] matches exactly the strings [<digits>x<digits>] and
    captures the two groups of digits. *)
Lemma resolution_regex_spec (s w h : string) :
  resolution_regex s = Some (w, h) <->
  digit_group w /\ digit_group h /\ s = (w ++ "x" ++ h)%string.
Proof.
  unfold resolution_regex, digit_group. split.
  - destruct (take_digits s) as [m1 a1] eqn:E1.
    destruct a1 as [|c rest]; [discriminate |].
    destruct (take_digits rest) as [m2 a2] eqn:E2.
    destruct (negb (empty m1) && Ascii.eqb c "x" && negb (empty m2) && empty a2) eqn:C;
      [| discriminate].
    intro E. inversion E; subst.
    apply andb_true_iff in C as [C Ca]. apply andb_true_iff in C as [C C2].
    apply andb_true_iff in C as [C1 Cx].
    apply negb_true_iff in C1, C2. apply Ascii.eqb_eq in Cx. apply empty_true in Ca.
    subst. apply take_digits_spec in E1 as (-> & H1 & _).
    apply take_digits_spec in E2 as (-> & H2 & _).
    rewrite append_empty_r. auto.
  - intros ((N1 & D1) & (N2 & D2) & ->).
    rewrite take_digits_append; [| assumption | reflexivity].
    cbn [append]. rewrite take_digits_all by assumption.
    rewrite N1, N2. reflexivity.
Qed.

Lemma refresh_rate_regex_integer (s i : string) :
  refresh_rate_regex s = Some (i, None) <-> digit_group i /\ s = i.
Proof.
  unfold refresh_rate_regex, digit_group. split.
  - destruct (take_digits s) as [m1 a1] eqn:E1.
    destruct (empty m1) eqn:N1; [discriminate |].
    destruct a1 as [|c rest].
    + intro E. inversion E; subst.
      apply take_digits_spec in E1 as (-> & H1 & _).
      rewrite append_empty_r. auto.
    + destruct (take_digits rest) as [m2 a2].
      destruct (Ascii.eqb c "." && negb (empty m2) && empty a2); discriminate.
  - intros ((N1 & D1) & ->).
    rewrite take_digits_all by assumption. now rewrite N1.
Qed.

Lemma refresh_rate_regex_fraction (s i f : string) :
  refresh_rate_regex s = Some (i, Some f) <->
  digit_group i /\ digit_group f /\ s = (i ++ "." ++ f)%string.
Proof.
  unfold refresh_rate_regex, digit_group. split.
  - destruct (take_digits s) as [m1 a1] eqn:E1.
    destruct (empty m1) eqn:N1; [discriminate |].
    destruct a1 as [|c rest]; [discriminate |].
    destruct (take_digits rest) as [m2 a2] eqn:E2.
    destruct (Ascii.eqb c "." && negb (empty m2) && empty a2) eqn:C; [| discriminate].
    intro E. inversion E; subst.
    apply andb_true_iff in C as [C Ca]. apply andb_true_iff in C as [Cx C2].
    apply negb_true_iff in C2. apply Ascii.eqb_eq in Cx. apply empty_true in Ca.
    subst. apply take_digits_spec in E1 as (-> & H1 & _).
    apply take_digits_spec in E2 as (-> & H2 & _).
    rewrite append_empty_r. auto.
  - intros ((N1 & D1) & (N2 & D2) & ->).
    rewrite take_digits_append; [| assumption | reflexivity].
    cbn [append]. rewrite N1, take_digits_all by assumption.
    rewrite N2. reflexivity.
Qed.

(** [refresh_rate_regex] fails exactly on the strings that are neither
    [<digits>] nor [<digits>.<digits>]; the empty string is one of them. *)
Lemma refresh_rate_regex_none (s : string) :
  refresh_rate_regex s = None <->
  (forall i, digit_group i -> s <> i)
  /\ (forall i f, digit_group i -> digit_group f -> s <> (i ++ "." ++ f)%string).
Proof.
  split.
  - intro E. split.
    + intros i Hi ->.
      rewrite (proj2 (refresh_rate_regex_integer i i)) in E by auto. discriminate E.
    + intros i f Hi Hf ->.
      rewrite (proj2 (refresh_rate_regex_fraction _ i f)) in E by auto. discriminate E.
  - intros [Hi Hf].
    destruct (refresh_rate_regex s) as [[i [f|]]|] eqn:E; [| | reflexivity].
    + apply refresh_rate_regex_fraction in E as (Di & Df & Es).
      now destruct (Hf i f Di Df).
    + apply refresh_rate_regex_integer in E as (Di & Es).
      now destruct (Hi i Di).
Qed.

(** ** Parsing of the manual strings *)

Section ParserProperties.

Variable dm : data_model.
Variable double_to_uint_out_of_range : Z -> Z.


Lemma parse_resolution_string_matched (input w h : string) (output : option Resolution) :
  digit_group w -> digit_group h -> trim_copy input = (w ++ "x" ++ h)%string ->
  parse_resolution_string dm input output =
    if (decimal_value 0 w <=? UINT_MAX) && (decimal_value 0 h <=? UINT_MAX)
    then (true, Some {| m_width := decimal_value 0 w; m_height := decimal_value 0 h |})
    else (false, output).
Proof.
  intros Hw Hh Ht. unfold parse_resolution_string. rewrite Ht.
  rewrite (proj2 (resolution_regex_spec _ w h)) by auto.
  rewrite !stou_digit_group by assumption.
  rewrite !(Z.leb_antisym UINT_MAX).
  destruct (UINT_MAX <? decimal_value 0 w), (UINT_MAX <? decimal_value 0 h); reflexivity.
Qed.

Lemma parse_resolution_string_unmatched (input : string) (output : option Resolution) :
  resolution_regex (trim_copy input) = None ->
  parse_resolution_string dm input output =
    if empty (trim_copy input) then (true, None) else (false, output).
Proof. intro E. unfold parse_resolution_string. now rewrite E. Qed.

(** C9. [parse_resolution_string] returns the unset value when the input,
    with white space trimmed on both sides, is empty. On [<digits>x<digits>]
    (the input itself, or the input once trimmed) whose two numbers fit in 32
    bits it returns that resolution. It reports an error for an input that,
    once trimmed, is not empty and is not of this form, as "abc" and "1920x"
    are, and for an input of this form with a number above the unsigned 32-bit
    range. An error leaves the output as it was. *)
Theorem parse_resolution_string_cases (input : string) (output : option Resolution) :
  (trim_copy input = "" ->
     parse_resolution_string dm input output = (true, None))
  /\ (forall w h,
        digit_group w -> digit_group h ->
        input = (w ++ "x" ++ h)%string \/ trim_copy input = (w ++ "x" ++ h)%string ->
        decimal_value 0 w <= UINT_MAX -> decimal_value 0 h <= UINT_MAX ->
        parse_resolution_string dm input output =
          (true, Some {| m_width := decimal_value 0 w; m_height := decimal_value 0 h |}))
  /\ (trim_copy input <> "" ->
      (forall w h, digit_group w -> digit_group h ->
                   trim_copy input <> (w ++ "x" ++ h)%string) ->
      parse_resolution_string dm input output = (false, output))
  /\ (forall w h,
        digit_group w -> digit_group h ->
        input = (w ++ "x" ++ h)%string \/ trim_copy input = (w ++ "x" ++ h)%string ->
        UINT_MAX < decimal_value 0 w \/ UINT_MAX < decimal_value 0 h ->
        parse_resolution_string dm input output = (false, output))
  /\ parse_resolution_string dm "abc" output = (false, output)
  /\ parse_resolution_string dm "1920x" output = (false, output).
Proof.
  assert (Trimmed : forall w h, digit_group w -> digit_group h ->
            input = (w ++ "x" ++ h)%string \/ trim_copy input = (w ++ "x" ++ h)%string ->
            trim_copy input = (w ++ "x" ++ h)%string).
  { intros w h Hw Hh [-> | E]; [now apply trim_copy_resolution | exact E]. }
  repeat split.
  - intro Ht. rewrite parse_resolution_string_unmatched; rewrite Ht; reflexivity.
  - intros w h Hw Hh Ht Vw Vh.
    rewrite (parse_resolution_string_matched _ w h) by auto.
    apply Z.leb_le in Vw, Vh. now rewrite Vw, Vh.
  - intros Hne Hno.
    assert (E : resolution_regex (trim_copy input) = None).
    { destruct (resolution_regex (trim_copy input)) as [[w h]|] eqn:E; [| reflexivity].
      apply resolution_regex_spec in E as (Hw & Hh & Ht).
      now destruct (Hno w h Hw Hh). }
    rewrite parse_resolution_string_unmatched by assumption.
    apply empty_false in Hne. now rewrite Hne.
  - intros w h Hw Hh Ht V.
    rewrite (parse_resolution_string_matched _ w h) by auto.
    destruct V as [V | V]; apply Z.leb_gt in V; rewrite V;
      [reflexivity | now rewrite andb_false_r].
Qed.

Lemma integer_digits_group (s : string) :
  digit_group s -> digit_group (integer_digits s).
Proof.
  intros [_ Hd]. unfold integer_digits, digit_group.
  destruct (empty (trim_left_copy_if s is_zero)) eqn:E; [now split |].
  split; [exact E | now apply all_digits_trim_left].
Qed.

Lemma numerator_digit_group (i f : string) :
  digit_group i -> digit_group f ->
  digit_group (integer_digits i ++ fraction_digits f).
Proof.
  intros Hi [_ Hf]. destruct (integer_digits_group i Hi) as [Ne Hd].
  split.
  - destruct (integer_digits i); [discriminate Ne | reflexivity].
  - rewrite all_digits_append, Hd. now apply all_digits_trim_right.
Qed.

Lemma pow10_as_unsigned_int_small (n : nat) :
  (n <= 9)%nat -> pow10_as_unsigned_int double_to_uint_out_of_range n = 10 ^ Z.of_nat n.
Proof.
  intro Hn. unfold pow10_as_unsigned_int.
  assert (L : 10 ^ Z.of_nat n <= 10 ^ 9) by (apply Z.pow_le_mono_r; lia).
  assert (U : 10 ^ 9 <= UINT_MAX) by (vm_compute; discriminate).
  destruct (10 ^ Z.of_nat n <=? UINT_MAX) eqn:E; [reflexivity |].
  apply Z.leb_gt in E. lia.
Qed.

Lemma pow10_as_unsigned_int_large (n : nat) :
  (10 <= n)%nat ->
  pow10_as_unsigned_int double_to_uint_out_of_range n =
    double_to_uint_out_of_range (10 ^ Z.of_nat n)
  /\ UINT_MAX < 10 ^ Z.of_nat n.
Proof.
  intro Hn. unfold pow10_as_unsigned_int.
  assert (L : 10 ^ 10 <= 10 ^ Z.of_nat n) by (apply Z.pow_le_mono_r; lia).
  assert (U : UINT_MAX < 10 ^ 10) by (vm_compute; reflexivity).
  destruct (10 ^ Z.of_nat n <=? UINT_MAX) eqn:E; [| split; [reflexivity | lia]].
  apply Z.leb_le in E. lia.
Qed.

(** What [parse_refresh_rate_string] does on [<digits>.<digits>]. *)
Lemma parse_refresh_rate_string_fraction (input i f : string) (output : option Rational) :
  digit_group i -> digit_group f -> trim_copy input = (i ++ "." ++ f)%string ->
  parse_refresh_rate_string dm double_to_uint_out_of_range input output =
    if empty (fraction_digits f) then
      if UINT_MAX <? decimal_value 0 (integer_digits i) then (false, output)
      else (true, Some {| m_numerator := decimal_value 0 (integer_digits i);
                          m_denominator := 1 |})
    else
      if UINT_MAX <? decimal_value 0 (integer_digits i ++ fraction_digits f)
      then (false, output)
      else (true, Some {| m_numerator :=
                            decimal_value 0 (integer_digits i ++ fraction_digits f);
                          m_denominator :=
                            pow10_as_unsigned_int double_to_uint_out_of_range
                              (String.length (fraction_digits f)) |}).
Proof.
  intros Hi Hf Ht.
  unfold parse_refresh_rate_string.
  rewrite Ht, (proj2 (refresh_rate_regex_fraction _ i f)) by auto.
  fold (integer_digits i). fold (fraction_digits f).
  destruct (empty (fraction_digits f)) eqn:E; cbn [negb].
  - rewrite stou_digit_group by now apply integer_digits_group.
    now destruct (UINT_MAX <? decimal_value 0 (integer_digits i)).
  - rewrite stou_digit_group by now apply numerator_digit_group.
    now destruct (UINT_MAX <? decimal_value 0 (integer_digits i ++ fraction_digits f)).
Qed.

(** What [parse_refresh_rate_string] does on [<digits>]. *)
Lemma parse_refresh_rate_string_integer (input i : string) (output : option Rational) :
  digit_group i -> trim_copy input = i ->
  parse_refresh_rate_string dm double_to_uint_out_of_range input output =
    if UINT_MAX <? decimal_value 0 (integer_digits i) then (false, output)
    else (true, Some {| m_numerator := decimal_value 0 (integer_digits i);
                        m_denominator := 1 |}).
Proof.
  intros Hi Ht.
  unfold parse_refresh_rate_string.
  rewrite Ht, (proj2 (refresh_rate_regex_integer _ i)) by auto.
  fold (integer_digits i). cbn [empty negb].
  rewrite stou_digit_group by now apply integer_digits_group.
  now destruct (UINT_MAX <? decimal_value 0 (integer_digits i)).
Qed.

(** Whenever [parse_refresh_rate_string] gives a value, the numerator fits in
    32 bits, and the denominator is the conversion of ten to the count of the
    fractional digits that remain: the power itself up to nine digits. *)
Lemma parse_refresh_rate_string_success (input : string) (output : option Rational)
    (r : Rational) :
  parse_refresh_rate_string dm double_to_uint_out_of_range input output = (true, Some r) ->
  0 <= m_numerator r <= UINT_MAX
  /\ exists k : nat,
       m_denominator r = pow10_as_unsigned_int double_to_uint_out_of_range k
       /\ ((exists i, digit_group i /\ trim_copy input = i /\ k = O)
           \/ (exists i f, digit_group i /\ digit_group f
                           /\ trim_copy input = (i ++ "." ++ f)%string
                           /\ k = String.length (fraction_digits f)))
       /\ ((k <= 9)%nat ->
           m_denominator r = 10 ^ Z.of_nat k /\ 1 <= m_denominator r <= UINT_MAX).
Proof.
  intro E.
  assert (Range : forall k : nat, (k <= 9)%nat ->
            pow10_as_unsigned_int double_to_uint_out_of_range k = 10 ^ Z.of_nat k
            /\ 1 <= pow10_as_unsigned_int double_to_uint_out_of_range k <= UINT_MAX).
  { intros k Hk. rewrite pow10_as_unsigned_int_small by assumption. split; [reflexivity |].
    assert (0 < 10 ^ Z.of_nat k) by (apply Z.pow_pos_nonneg; lia).
    assert (10 ^ Z.of_nat k <= 10 ^ 9) by (apply Z.pow_le_mono_r; lia).
    assert (10 ^ 9 <= UINT_MAX) by (vm_compute; discriminate).
    lia. }
  destruct (refresh_rate_regex (trim_copy input)) as [[i [f|]]|] eqn:M.
  - apply refresh_rate_regex_fraction in M as (Hi & Hf & Ht).
    rewrite (parse_refresh_rate_string_fraction input i f) in E by assumption.
    destruct (empty (fraction_digits f)) eqn:Ef.
    + destruct (UINT_MAX <? decimal_value 0 (integer_digits i)) eqn:V; [discriminate E |].
      inversion E; subst; clear E. cbn [m_numerator m_denominator].
      apply Z.ltb_ge in V. apply empty_true in Ef.
      destruct (integer_digits_group i Hi) as [_ Di].
      pose proof (decimal_value_lower (integer_digits i) 0 Di (Z.le_refl 0)).
      split; [lia |]. exists O. split; [reflexivity |]. split.
      * right. exists i, f. rewrite Ef. auto.
      * intros _. split; [reflexivity | vm_compute; split; discriminate].
    + destruct (UINT_MAX <? decimal_value 0 (integer_digits i ++ fraction_digits f)) eqn:V;
        [discriminate E |].
      inversion E; subst; clear E. cbn [m_numerator m_denominator].
      apply Z.ltb_ge in V.
      destruct (numerator_digit_group i f Hi Hf) as [_ Dn].
      pose proof (decimal_value_lower _ 0 Dn (Z.le_refl 0)).
      split; [lia |]. exists (String.length (fraction_digits f)).
      split; [reflexivity |]. split.
      * right. exists i, f. auto.
      * exact (Range _).
  - apply refresh_rate_regex_integer in M as (Hi & Ht).
    rewrite (parse_refresh_rate_string_integer input i) in E by assumption.
    destruct (UINT_MAX <? decimal_value 0 (integer_digits i)) eqn:V; [discriminate E |].
    inversion E; subst; clear E. cbn [m_numerator m_denominator].
    apply Z.ltb_ge in V.
    destruct (integer_digits_group (trim_copy input) Hi) as [_ Di].
    pose proof (decimal_value_lower _ 0 Di (Z.le_refl 0)).
    split; [lia |]. exists O. split; [reflexivity |]. split.
    + left. exists (trim_copy input). auto.
    + intros _. split; [reflexivity | vm_compute; split; discriminate].
  - unfold parse_refresh_rate_string in E. rewrite M in E.
    destruct (empty (trim_copy input)); discriminate E.
Qed.

(** C1 (amended). On [<integer>.<fraction>], with the leading zeros of the
    integer part removed (one digit kept) and the trailing zeros of the
    fractional part removed: when fractional digits remain, are at most nine,
    and the concatenated digits denote a number that fits in 32 bits, the
    result is that number over ten to the count of the remaining fractional
    digits. So "60" gives 60/1, "59.995" gives 59995/1000, and "00059.9500"
    gives 5995/100. *)
Theorem parse_refresh_rate_string_rational :
  (forall (input i f : string) (output : option Rational),
      digit_group i -> digit_group f -> trim_copy input = (i ++ "." ++ f)%string ->
      fraction_digits f <> "" ->
      (String.length (fraction_digits f) <= 9)%nat ->
      decimal_value 0 (integer_digits i ++ fraction_digits f) <= UINT_MAX ->
      parse_refresh_rate_string dm double_to_uint_out_of_range input output =
        (true, Some {| m_numerator :=
                         decimal_value 0 (integer_digits i ++ fraction_digits f);
                       m_denominator :=
                         10 ^ Z.of_nat (String.length (fraction_digits f)) |}))
  /\ (forall output,
        parse_refresh_rate_string dm double_to_uint_out_of_range "60" output =
          (true, Some {| m_numerator := 60; m_denominator := 1 |}))
  /\ (forall output,
        parse_refresh_rate_string dm double_to_uint_out_of_range "59.995" output =
          (true, Some {| m_numerator := 59995; m_denominator := 1000 |}))
  /\ (forall output,
        parse_refresh_rate_string dm double_to_uint_out_of_range "00059.9500" output =
          (true, Some {| m_numerator := 5995; m_denominator := 100 |})).
Proof.
  split; [| split; [| split]].
  - intros input i f output Hi Hf Ht Hne Hlen Hfit.
    rewrite (parse_refresh_rate_string_fraction input i f) by assumption.
    apply empty_false in Hne. rewrite Hne.
    apply Z.ltb_ge in Hfit. rewrite Hfit.
    now rewrite pow10_as_unsigned_int_small.
  - intro output.
    rewrite (parse_refresh_rate_string_integer "60" "60"); [| now split |]; reflexivity.
  - intro output.
    rewrite (parse_refresh_rate_string_fraction "59.995" "59" "995");
      [| now split | now split |]; reflexivity.
  - intro output.
    rewrite (parse_refresh_rate_string_fraction "00059.9500" "00059" "9500");
      [| now split | now split |]; reflexivity.
Qed.

(** C3. With ten fractional digits the numerator can still fit in 32 bits
    while ten to the tenth does not: on "0.0000000001" the parser reports
    success with numerator 1 and, as denominator, whatever the conversion of
    1e10 to [unsigned int] leaves. *)
Theorem parse_refresh_rate_string_denominator_overflow (output : option Rational) :
  parse_refresh_rate_string dm double_to_uint_out_of_range "0.0000000001" output =
    (true, Some {| m_numerator := 1;
                   m_denominator := double_to_uint_out_of_range (10 ^ 10) |})
  /\ UINT_MAX < 10 ^ 10.
Proof.
  split; [| reflexivity].
  rewrite (parse_refresh_rate_string_fraction "0.0000000001" "0" "0000000001");
    [| now split | now split | reflexivity].
  reflexivity.
Qed.

(** ** Derivation of the configuration *)

(** C7. With device preparation "disabled", [parse_configuration] returns
    the disabled outcome, whatever the other fields and the session are. *)
Theorem parse_configuration_disabled (video_config : video_t) (session : launch_session_t) :
  configuration_option (dd video_config) = config_option_e.disabled ->
  parse_configuration dm double_to_uint_out_of_range video_config session =
    configuration_disabled_tag_t.
Proof.
  intro E. unfold parse_configuration, parse_device_prep_option. now rewrite E.
Qed.

Lemma parse_device_prep_option_enabled (video_config : video_t) :
  configuration_option (dd video_config) <> config_option_e.disabled ->
  exists device_prep, parse_device_prep_option video_config = Some device_prep.
Proof.
  unfold parse_device_prep_option.
  destruct (configuration_option (dd video_config)); intro E;
    [now contradiction E | eexists; reflexivity ..].
Qed.

Lemma parse_resolution_option_manual_empty (video_config : video_t)
    (session : launch_session_t) (config : SingleDisplayConfiguration) :
  resolution_option (dd video_config) = resolution_option_e.manual ->
  manual_resolution (dd video_config) = "" ->
  enable_sops session = true ->
  fst (parse_resolution_option dm video_config session config) = false.
Proof.
  intros Em Es Eo. unfold parse_resolution_option. now rewrite Em, Es, Eo.
Qed.

(** C2 (amended). With device preparation not disabled, resolution mode
    "manual", an empty manual resolution string and a session that has the
    optimize-settings flag set, [parse_configuration] fails to parse. *)
Theorem parse_configuration_manual_resolution_empty
    (video_config : video_t) (session : launch_session_t) :
  configuration_option (dd video_config) <> config_option_e.disabled ->
  resolution_option (dd video_config) = resolution_option_e.manual ->
  manual_resolution (dd video_config) = "" ->
  enable_sops session = true ->
  parse_configuration dm double_to_uint_out_of_range video_config session =
    failed_to_parse_tag_t.
Proof.
  intros Ep Em Es Eo. unfold parse_configuration.
  destruct (parse_device_prep_option_enabled _ Ep) as [device_prep ->].
  match goal with
  | |- context [parse_resolution_option dm video_config session ?c] =>
      pose proof (parse_resolution_option_manual_empty video_config session c Em Es Eo) as F;
      destruct (parse_resolution_option dm video_config session c) as [ok config]
  end.
  simpl in F. now rewrite F.
Qed.





End ParserProperties.

(** ** The orchestrator *)

Section OrchestratorProperties.

Variable dm : data_model.
Variable double_to_uint_out_of_range : Z -> Z.

Context {D : Type} `{SettingsManagerInterface D}.

Variable platform_settings_manager : option (string -> option Z -> D).

Lemma emit_all_trace (es : list event) (w : world D) :
  emit_all es w =
    (tt, {| DD_DATA_config_revert_delay := DD_DATA_config_revert_delay w;
            DD_DATA_sm_instance := DD_DATA_sm_instance w;
            trace := (trace w ++ es)%list |}).
Proof.
  revert w. induction es as [|e es IH]; intro w.
  - simpl. unfold ret. rewrite app_nil_r. now destruct w.
  - cbn [emit_all]. unfold bind, emit. rewrite IH. cbn.
    now rewrite <- app_assoc.
Qed.

Lemma sm_instance_schedule_world (scheduler : RetryScheduler D)
    (exec_fn : retry_function) (options : SchedulerOptions) (w : world D) :
  sm_instance_schedule scheduler exec_fn options w =
    (tt, {| DD_DATA_config_revert_delay := DD_DATA_config_revert_delay w;
            DD_DATA_sm_instance := Some (snd (schedule exec_fn options scheduler));
            trace := (trace w ++ ev_schedule exec_fn options
                        :: fst (schedule exec_fn options scheduler))%list |}).
Proof.
  unfold sm_instance_schedule, bind, emit.
  destruct (schedule exec_fn options scheduler) as [calls scheduler'].
  rewrite emit_all_trace. cbn. now rewrite <- app_assoc.
Qed.

Lemma timer_round_world (w : world D) (scheduler : RetryScheduler D) :
  DD_DATA_sm_instance w = Some scheduler ->
  timer_round w =
    (tt, {| DD_DATA_config_revert_delay := DD_DATA_config_revert_delay w;
            DD_DATA_sm_instance := Some (snd (timer_iteration scheduler));
            trace := (trace w ++ fst (timer_iteration scheduler))%list |}).
Proof.
  intro E. unfold timer_round, bind, get_sm_instance. rewrite E.
  destruct (timer_iteration scheduler) as [events scheduler'].
  rewrite emit_all_trace. reflexivity.
Qed.

Lemma timer_rounds_stopped (n : nat) (w : world D) (scheduler : RetryScheduler D) :
  DD_DATA_sm_instance w = Some scheduler ->
  m_retry_function scheduler = None ->
  timer_rounds n w = (tt, w).
Proof.
  intros E N. induction n as [|n IH]; [reflexivity |].
  cbn [timer_rounds]. unfold bind.
  rewrite (timer_round_world w scheduler E).
  unfold timer_iteration. rewrite N. cbn [fst snd].
  rewrite app_nil_r, <- E.
  replace {| DD_DATA_config_revert_delay := DD_DATA_config_revert_delay w;
             DD_DATA_sm_instance := DD_DATA_sm_instance w;
             trace := trace w |} with w by now destruct w.
  exact IH.
Qed.

Lemma timer_rounds_without_scheduler (n : nat) (w : world D) :
  DD_DATA_sm_instance w = None -> timer_rounds n w = (tt, w).
Proof.
  intro E. induction n as [|n IH]; [reflexivity |].
  cbn [timer_rounds]. unfold bind at 1. unfold timer_round, bind, get_sm_instance.
  rewrite E. exact IH.
Qed.

Lemma timer_round_running (w : world D) (scheduler : RetryScheduler D)
    (exec_fn : retry_function) :
  DD_DATA_sm_instance w = Some scheduler ->
  m_retry_function scheduler = Some exec_fn ->
  snd (timer_round w) =
    let '(calls, stop_requested, iface) := exec exec_fn (m_iface scheduler) in
    {| DD_DATA_config_revert_delay := DD_DATA_config_revert_delay w;
       DD_DATA_sm_instance :=
         Some (if stop_requested then stopped iface
               else {| m_iface := iface;
                       m_retry_function := Some exec_fn;
                       m_pending_durations :=
                         snd (next_duration (m_pending_durations scheduler)) |});
       trace := (trace w ++ ev_sleep (fst (next_duration (m_pending_durations scheduler)))
                   :: calls)%list |}.
Proof.
  intros E R. rewrite (timer_round_world w scheduler E).
  unfold timer_iteration. rewrite R.
  destruct (next_duration (m_pending_durations scheduler)) as [d rest].
  destruct (exec exec_fn (m_iface scheduler)) as [[calls stop_requested] iface].
  reflexivity.
Qed.

Lemma timer_rounds_succ (n : nat) (w : world D) :
  snd (timer_rounds (S n) w) = snd (timer_rounds n (snd (timer_round w))).
Proof.
  cbn [timer_rounds]. unfold bind. now destruct (timer_round w).
Qed.

Lemma exec_apply_function (config : SingleDisplayConfiguration) (iface iface' : D)
    (result : ApplyResult.t) :
  applySettings iface config = (result, iface') ->
  exec (apply_function config) iface =
    match result with
    | ApplyResult.ApiTemporarilyUnavailable =>
        ([ev_applySettings config result], false, iface')
    | _ => ([ev_applySettings config result; ev_requestStop], true, iface')
    end.
Proof. intro E. unfold exec. rewrite E. now destruct result. Qed.

(** C4. An attempt of the operation that [configure_display] schedules
    asks to stop exactly when [applySettings] returns something else than
    [ApiTemporarilyUnavailable]. When it returns [ApiTemporarilyUnavailable]
    three times and then [Ok], the first attempt is made in the calling
    thread and three more follow, each after the fixed interval; the fourth
    one asks to stop, which ends the loop: however many more rounds the timer
    is given, the record of events stays at four attempts and one stop
    request. *)
Theorem configure_display_retries_while_temporarily_unavailable :
  (forall (config : SingleDisplayConfiguration) (iface : D),
      snd (fst (exec (apply_function config) iface)) = true <->
      fst (applySettings iface config) <> ApplyResult.ApiTemporarilyUnavailable)
  /\ (forall (config : SingleDisplayConfiguration) (w : world D)
             (scheduler : RetryScheduler D) (d1 d2 d3 d4 : D) (more : nat),
        DD_DATA_sm_instance w = Some scheduler ->
        applySettings (m_iface scheduler) config =
          (ApplyResult.ApiTemporarilyUnavailable, d1) ->
        applySettings d1 config = (ApplyResult.ApiTemporarilyUnavailable, d2) ->
        applySettings d2 config = (ApplyResult.ApiTemporarilyUnavailable, d3) ->
        applySettings d3 config = (ApplyResult.Ok, d4) ->
        let retry_options :=
          {| m_sleep_durations := [DEFAULT_RETRY_INTERVAL];
             m_execution := Execution.Immediate |} in
        let events :=
          [ev_lock;
           ev_schedule (apply_function config) retry_options;
           ev_applySettings config ApplyResult.ApiTemporarilyUnavailable;
           ev_unlock;
           ev_sleep DEFAULT_RETRY_INTERVAL;
           ev_applySettings config ApplyResult.ApiTemporarilyUnavailable;
           ev_sleep DEFAULT_RETRY_INTERVAL;
           ev_applySettings config ApplyResult.ApiTemporarilyUnavailable;
           ev_sleep DEFAULT_RETRY_INTERVAL;
           ev_applySettings config ApplyResult.Ok;
           ev_requestStop] in
        snd (timer_rounds (3 + more) (snd (configure_display_config config w))) =
          {| DD_DATA_config_revert_delay := DD_DATA_config_revert_delay w;
             DD_DATA_sm_instance := Some (stopped d4);
             trace := (trace w ++ events)%list |}
        /\ attempts events = 4%nat
        /\ stop_requests events = 1%nat).
Proof.
  split.
  - intros config iface. unfold exec.
    destruct (applySettings iface config) as [result iface'].
    destruct result; cbn; split; intro E;
      solve [reflexivity | discriminate | exfalso; now apply E].
  - intros config w scheduler d1 d2 d3 d4 more Es A1 A2 A3 A4 retry_options events.
    split; [| split; reflexivity].
    assert (Start : snd (configure_display_config config w) =
              {| DD_DATA_config_revert_delay := DD_DATA_config_revert_delay w;
                 DD_DATA_sm_instance :=
                   Some {| m_iface := d1;
                           m_retry_function := Some (apply_function config);
                           m_pending_durations := [DEFAULT_RETRY_INTERVAL] |};
                 trace := (trace w ++ [ev_lock;
                              ev_schedule (apply_function config) retry_options;
                              ev_applySettings config ApplyResult.ApiTemporarilyUnavailable;
                              ev_unlock])%list |}).
    { unfold configure_display_config, bind, lock, unlock, emit, get_sm_instance.
      cbn. rewrite Es. rewrite sm_instance_schedule_world.
      unfold schedule. cbn [m_execution retry_options].
      rewrite (exec_apply_function config _ _ _ A1). cbn.
      now rewrite <- !app_assoc. }
    rewrite Start. clear Start.
    cbn [Nat.add].
    rewrite timer_rounds_succ.
    erewrite (timer_round_running _ _ (apply_function config)); [| reflexivity ..].
    cbn [m_iface m_pending_durations DD_DATA_config_revert_delay next_duration fst snd trace].
    rewrite (exec_apply_function config _ _ _ A2).
    rewrite timer_rounds_succ.
    erewrite (timer_round_running _ _ (apply_function config)); [| reflexivity ..].
    cbn [m_iface m_pending_durations DD_DATA_config_revert_delay next_duration fst snd trace].
    rewrite (exec_apply_function config _ _ _ A3).
    rewrite timer_rounds_succ.
    erewrite (timer_round_running _ _ (apply_function config)); [| reflexivity ..].
    cbn [m_iface m_pending_durations DD_DATA_config_revert_delay next_duration fst snd trace].
    rewrite (exec_apply_function config _ _ _ A4).
    erewrite timer_rounds_stopped; [| reflexivity ..].
    cbn [snd]. unfold events. rewrite <- !app_assoc. reflexivity.
Qed.

(** C8. The session-level [configure_display]: when the configuration
    fails to parse, nothing is done, the global data and the record of events
    are as before (nothing is scheduled, the lock is not even taken); on the
    disabled outcome it is [revert_configuration]; on a parsed configuration
    it is [configure_display] of that configuration. *)
Theorem configure_display_dispatch
    (video_config : video_t) (session : launch_session_t) (w : world D) :
  (parse_configuration dm double_to_uint_out_of_range video_config session =
     failed_to_parse_tag_t ->
   configure_display dm double_to_uint_out_of_range video_config session w = (tt, w))
  /\ (parse_configuration dm double_to_uint_out_of_range video_config session =
        configuration_disabled_tag_t ->
      configure_display dm double_to_uint_out_of_range video_config session w =
        revert_configuration w)
  /\ (forall parsed,
        parse_configuration dm double_to_uint_out_of_range video_config session =
          parsed_config parsed ->
        configure_display dm double_to_uint_out_of_range video_config session w =
          configure_display_config parsed w).
Proof.
  unfold configure_display. repeat split.
  - intro E. now rewrite E.
  - intro E. now rewrite E.
  - intros parsed E. now rewrite E.
Qed.

Lemma sleeps_app (a b : list event) : sleeps (a ++ b) = (sleeps a ++ sleeps b)%list.
Proof.
  induction a as [|e a IH]; [reflexivity |].
  destruct e; cbn [app sleeps]; now rewrite IH.
Qed.

Lemma attempts_app (a b : list event) : attempts (a ++ b) = (attempts a + attempts b)%nat.
Proof.
  induction a as [|e a IH]; [reflexivity |].
  destruct e; cbn [app attempts]; now rewrite IH.
Qed.

Lemma exec_revert_function (try_once : bool) (iface : D) :
  exec (revert_function try_once) iface =
    let reverted := fst (revertSettings iface) in
    (ev_revertSettings reverted :: (if reverted || try_once then [ev_requestStop] else []),
     reverted || try_once,
     snd (revertSettings iface)).
Proof.
  unfold exec. destruct (revertSettings iface) as [reverted iface'].
  cbn [fst snd]. now destruct (reverted || try_once).
Qed.

(** Every run of a scheduled closure is one attempt and no sleep. *)
Lemma exec_one_attempt (exec_fn : retry_function) (iface : D) :
  sleeps (fst (fst (exec exec_fn iface))) = [] /\
  attempts (fst (fst (exec exec_fn iface))) = 1%nat.
Proof.
  destruct exec_fn as [try_once | config]; unfold exec.
  - destruct (revertSettings iface) as [reverted iface'].
    now destruct (reverted || try_once).
  - destruct (applySettings iface config) as [result iface'].
    now destruct (negb (ApplyResult.eqb result ApplyResult.ApiTemporarilyUnavailable)).
Qed.

(** A timer loop whose only remaining duration is [every]: [n] rounds make
    some [k] attempts, each after a sleep of [every]; fewer than [n] only
    when the loop was stopped. *)
Lemma timer_rounds_fixed_interval (every : Z) (n : nat) :
  forall (w : world D) (scheduler : RetryScheduler D) (exec_fn : retry_function),
    DD_DATA_sm_instance w = Some scheduler ->
    m_retry_function scheduler = Some exec_fn ->
    m_pending_durations scheduler = [every] ->
    exists (es : list event) (k : nat) (scheduler' : RetryScheduler D),
      (k <= n)%nat
      /\ trace (snd (timer_rounds n w)) = (trace w ++ es)%list
      /\ sleeps es = duration_sequence every every k
      /\ attempts es = k
      /\ DD_DATA_sm_instance (snd (timer_rounds n w)) = Some scheduler'
      /\ ((k < n)%nat -> m_retry_function scheduler' = None).
Proof.
  induction n as [|n IH]; intros w scheduler exec_fn Es Er Ep.
  - exists [], O, scheduler. cbn. rewrite app_nil_r. repeat split; auto. lia.
  - rewrite timer_rounds_succ.
    rewrite (timer_round_running w scheduler exec_fn Es Er), Ep.
    destruct (exec_one_attempt exec_fn (m_iface scheduler)) as [S0 A1].
    destruct (exec exec_fn (m_iface scheduler)) as [[calls stop_requested] iface].
    cbn [fst snd next_duration] in *.
    destruct stop_requested.
    + erewrite timer_rounds_stopped; [| reflexivity ..].
      exists (ev_sleep every :: calls), 1%nat, (stopped iface).
      cbn [snd trace DD_DATA_sm_instance sleeps attempts duration_sequence].
      rewrite S0, A1. repeat split; auto. lia.
    + match goal with
      | |- context [timer_rounds n ?w0] =>
          destruct (IH w0 _ exec_fn eq_refl eq_refl eq_refl)
            as (es & k & scheduler' & Hk & Ht & Hs & Ha & Hi & Hstop)
      end.
      exists (ev_sleep every :: calls ++ es)%list, (S k), scheduler'.
      rewrite Ht, Hi. cbn [trace sleeps attempts duration_sequence].
      rewrite sleeps_app, attempts_app, S0, A1, Hs, Ha, <- app_assoc.
      repeat split; auto; try lia. intro L. apply Hstop. lia.
Qed.

Lemma revert_configuration_world (w : world D) (scheduler : RetryScheduler D) :
  DD_DATA_sm_instance w = Some scheduler ->
  let delay := DD_DATA_config_revert_delay w in
  let options :=
    if 0 <? delay
    then {| m_sleep_durations := [delay; DEFAULT_RETRY_INTERVAL];
            m_execution := Execution.ScheduledOnly |}
    else {| m_sleep_durations := [DEFAULT_RETRY_INTERVAL];
            m_execution := Execution.Immediate |} in
  snd (revert_configuration w) =
    {| DD_DATA_config_revert_delay := delay;
       DD_DATA_sm_instance := Some (snd (schedule (revert_function false) options scheduler));
       trace := (trace w ++ [ev_lock; ev_schedule (revert_function false) options]
                   ++ fst (schedule (revert_function false) options scheduler)
                   ++ [ev_unlock])%list |}.
Proof.
  intros Es delay options.
  unfold revert_configuration, revert_configuration_unlocked, bind, lock, unlock,
    get_sm_instance, get_config_revert_delay, emit.
  cbn [DD_DATA_sm_instance DD_DATA_config_revert_delay trace revert_option_e.eqb andb].
  rewrite Es. fold delay. fold options.
  rewrite sm_instance_schedule_world.
  cbn [DD_DATA_sm_instance DD_DATA_config_revert_delay trace snd].
  rewrite <- !app_assoc. reflexivity.
Qed.

Lemma exec_revert_false (iface iface' : D) (reverted : bool) :
  revertSettings iface = (reverted, iface') ->
  exec (revert_function false) iface =
    (ev_revertSettings reverted :: (if reverted then [ev_requestStop] else []),
     reverted, iface').
Proof.
  intro E. rewrite exec_revert_function, E. cbn [fst snd].
  now rewrite orb_false_r.
Qed.

(** A revert loop on a fixed interval adds exactly the events of
    [revert_loop_events]: a sleep before each attempt, an attempt in every
    round until the revert succeeds, and the stop request of that round. *)
Lemma timer_rounds_revert_loop (every : Z) (n : nat) :
  forall (w : world D) (scheduler : RetryScheduler D),
    DD_DATA_sm_instance w = Some scheduler ->
    m_retry_function scheduler = Some (revert_function false) ->
    m_pending_durations scheduler = [every] ->
    trace (snd (timer_rounds n w)) =
      (trace w ++ revert_loop_events every every (m_iface scheduler) n)%list.
Proof.
  induction n as [|n IH]; intros w scheduler Es Er Ep.
  - cbn. now rewrite app_nil_r.
  - rewrite timer_rounds_succ.
    rewrite (timer_round_running w scheduler (revert_function false) Es Er), Ep.
    cbn [revert_loop_events next_duration fst snd].
    destruct (revertSettings (m_iface scheduler)) as [reverted iface] eqn:R.
    rewrite (exec_revert_false _ _ _ R).
    destruct reverted.
    + erewrite timer_rounds_stopped; [| reflexivity ..]. reflexivity.
    + erewrite IH; [| reflexivity ..].
      cbn [trace m_iface]. now rewrite <- app_assoc.
Qed.

(** What the timer adds after [revert_configuration], round by round. *)
Lemma revert_configuration_timer_trace (w : world D) (scheduler : RetryScheduler D)
    (n : nat) :
  DD_DATA_sm_instance w = Some scheduler ->
  let delay := DD_DATA_config_revert_delay w in
  let w' := snd (revert_configuration w) in
  trace (snd (timer_rounds n w')) =
    (trace w' ++
       if 0 <? delay
       then revert_loop_events delay DEFAULT_RETRY_INTERVAL (m_iface scheduler) n
       else if fst (revertSettings (m_iface scheduler)) then []
            else revert_loop_events DEFAULT_RETRY_INTERVAL DEFAULT_RETRY_INTERVAL
                   (snd (revertSettings (m_iface scheduler))) n)%list.
Proof.
  intros Es delay w'. unfold w'.
  rewrite (revert_configuration_world w scheduler Es). fold delay.
  destruct (0 <? delay) eqn:Hd; unfold schedule; cbn [m_execution m_sleep_durations fst snd].
  - destruct n as [|n]; [cbn; now rewrite app_nil_r |].
    rewrite timer_rounds_succ.
    erewrite (timer_round_running _ _ (revert_function false)); [| reflexivity ..].
    cbn [m_iface m_pending_durations DD_DATA_config_revert_delay next_duration
           fst snd trace revert_loop_events].
    destruct (revertSettings (m_iface scheduler)) as [reverted iface] eqn:R.
    rewrite (exec_revert_false _ _ _ R).
    destruct reverted.
    + erewrite timer_rounds_stopped; [| reflexivity ..]. reflexivity.
    + erewrite (timer_rounds_revert_loop DEFAULT_RETRY_INTERVAL); [| reflexivity ..].
      cbn [trace m_iface]. now rewrite <- !app_assoc.
  - destruct (revertSettings (m_iface scheduler)) as [reverted iface] eqn:R.
    rewrite (exec_revert_false _ _ _ R). cbn [fst snd].
    destruct reverted.
    + erewrite timer_rounds_stopped; [| reflexivity ..].
      cbn [snd]. now rewrite app_nil_r.
    + erewrite (timer_rounds_revert_loop DEFAULT_RETRY_INTERVAL); [| reflexivity ..].
      reflexivity.
Qed.

(** C5. [revert_configuration] on a platform with a settings manager.
    With a configured delay above zero the revert is scheduled without an
    attempt in the calling thread, and the timer loop sleeps the delay before
    the first attempt and the fixed interval before every later one. With a
    delay of zero (or below) the first attempt is made at once in the calling
    thread and every later one follows a sleep of the fixed interval. In both
    cases there is no bound on the attempts: [n] rounds of the timer make [n]
    attempts unless the loop was stopped, and an attempt asks to stop exactly
    when [revertSettings] reports success. Without a settings manager nothing
    is scheduled. The events the timer adds are given exactly, for every
    number of rounds: each round sleeps first and then reverts, and only a
    successful revert ends the loop; when the revert fails twice and then
    succeeds the whole record is written out, for both cases. *)
Theorem revert_configuration_first_attempt_delay (w : world D) :
  let delay := DD_DATA_config_revert_delay w in
  let w' := snd (revert_configuration w) in
  (forall scheduler : RetryScheduler D,
      DD_DATA_sm_instance w = Some scheduler ->
      0 < delay ->
      w' = {| DD_DATA_config_revert_delay := delay;
              DD_DATA_sm_instance :=
                Some {| m_iface := m_iface scheduler;
                        m_retry_function := Some (revert_function false);
                        m_pending_durations := [delay; DEFAULT_RETRY_INTERVAL] |};
              trace := (trace w ++
                          [ev_lock;
                           ev_schedule (revert_function false)
                             {| m_sleep_durations := [delay; DEFAULT_RETRY_INTERVAL];
                                m_execution := Execution.ScheduledOnly |};
                           ev_unlock])%list |}
      /\ forall n : nat,
          exists (es : list event) (k : nat) (scheduler' : RetryScheduler D),
            (k <= n)%nat
            /\ trace (snd (timer_rounds n w')) = (trace w' ++ es)%list
            /\ sleeps es = duration_sequence delay DEFAULT_RETRY_INTERVAL k
            /\ attempts es = k
            /\ DD_DATA_sm_instance (snd (timer_rounds n w')) = Some scheduler'
            /\ ((k < n)%nat -> m_retry_function scheduler' = None))
  /\ (forall scheduler : RetryScheduler D,
        DD_DATA_sm_instance w = Some scheduler ->
        delay <= 0 ->
        let reverted := fst (revertSettings (m_iface scheduler)) in
        let iface := snd (revertSettings (m_iface scheduler)) in
        w' = {| DD_DATA_config_revert_delay := delay;
                DD_DATA_sm_instance :=
                  Some (if reverted then stopped iface
                        else {| m_iface := iface;
                                m_retry_function := Some (revert_function false);
                                m_pending_durations := [DEFAULT_RETRY_INTERVAL] |});
                trace := (trace w ++
                            [ev_lock;
                             ev_schedule (revert_function false)
                               {| m_sleep_durations := [DEFAULT_RETRY_INTERVAL];
                                  m_execution := Execution.Immediate |};
                             ev_revertSettings reverted]
                            ++ (if reverted then [ev_requestStop] else [])
                            ++ [ev_unlock])%list |}
        /\ forall n : nat,
            exists (es : list event) (k : nat) (scheduler' : RetryScheduler D),
              (k <= n)%nat
              /\ trace (snd (timer_rounds n w')) = (trace w' ++ es)%list
              /\ sleeps es = duration_sequence DEFAULT_RETRY_INTERVAL DEFAULT_RETRY_INTERVAL k
              /\ attempts es = k
              /\ DD_DATA_sm_instance (snd (timer_rounds n w')) = Some scheduler'
              /\ ((k < n)%nat -> m_retry_function scheduler' = None))
  /\ (forall iface : D,
        snd (fst (exec (revert_function false) iface)) = fst (revertSettings iface))
  /\ (DD_DATA_sm_instance w = None ->
      w' = {| DD_DATA_config_revert_delay := delay;
              DD_DATA_sm_instance := None;
              trace := (trace w ++ [ev_lock; ev_unlock])%list |})
  /\ (forall (scheduler : RetryScheduler D) (n : nat),
        DD_DATA_sm_instance w = Some scheduler ->
        trace (snd (timer_rounds n w')) =
          (trace w' ++
             if 0 <? delay
             then revert_loop_events delay DEFAULT_RETRY_INTERVAL (m_iface scheduler) n
             else if fst (revertSettings (m_iface scheduler)) then []
                  else revert_loop_events DEFAULT_RETRY_INTERVAL DEFAULT_RETRY_INTERVAL
                         (snd (revertSettings (m_iface scheduler))) n)%list)
  /\ (forall (scheduler : RetryScheduler D) (d1 d2 d3 : D) (more : nat),
        DD_DATA_sm_instance w = Some scheduler ->
        revertSettings (m_iface scheduler) = (false, d1) ->
        revertSettings d1 = (false, d2) ->
        revertSettings d2 = (true, d3) ->
        (0 < delay ->
         snd (timer_rounds (3 + more) w') =
           {| DD_DATA_config_revert_delay := delay;
              DD_DATA_sm_instance := Some (stopped d3);
              trace := (trace w ++
                          [ev_lock;
                           ev_schedule (revert_function false)
                             {| m_sleep_durations := [delay; DEFAULT_RETRY_INTERVAL];
                                m_execution := Execution.ScheduledOnly |};
                           ev_unlock;
                           ev_sleep delay;
                           ev_revertSettings false;
                           ev_sleep DEFAULT_RETRY_INTERVAL;
                           ev_revertSettings false;
                           ev_sleep DEFAULT_RETRY_INTERVAL;
                           ev_revertSettings true;
                           ev_requestStop])%list |})
        /\ (delay <= 0 ->
            snd (timer_rounds (2 + more) w') =
              {| DD_DATA_config_revert_delay := delay;
                 DD_DATA_sm_instance := Some (stopped d3);
                 trace := (trace w ++
                             [ev_lock;
                              ev_schedule (revert_function false)
                                {| m_sleep_durations := [DEFAULT_RETRY_INTERVAL];
                                   m_execution := Execution.Immediate |};
                              ev_revertSettings false;
                              ev_unlock;
                              ev_sleep DEFAULT_RETRY_INTERVAL;
                              ev_revertSettings false;
                              ev_sleep DEFAULT_RETRY_INTERVAL;
                              ev_revertSettings true;
                              ev_requestStop])%list |})).
Proof.
  intros delay w'. split; [| split; [| split; [| split; [| split]]]].
  - intros scheduler Es Hd.
    assert (Ew : w' = {| DD_DATA_config_revert_delay := delay;
              DD_DATA_sm_instance :=
                Some {| m_iface := m_iface scheduler;
                        m_retry_function := Some (revert_function false);
                        m_pending_durations := [delay; DEFAULT_RETRY_INTERVAL] |};
              trace := (trace w ++
                          [ev_lock;
                           ev_schedule (revert_function false)
                             {| m_sleep_durations := [delay; DEFAULT_RETRY_INTERVAL];
                                m_execution := Execution.ScheduledOnly |};
                           ev_unlock])%list |}).
    { unfold w'. rewrite (revert_configuration_world w scheduler Es).
      fold delay. apply Z.ltb_lt in Hd. rewrite Hd. reflexivity. }
    split; [exact Ew |].
    rewrite Ew. intros [|n].
    + exists [], O. eexists. cbn. rewrite app_nil_r.
      repeat split; auto. lia.
    + rewrite timer_rounds_succ.
      erewrite (timer_round_running _ _ (revert_function false)); [| reflexivity ..].
      cbn [m_iface m_pending_durations DD_DATA_config_revert_delay next_duration
             fst snd trace].
      rewrite exec_revert_function. cbv zeta. rewrite orb_false_r.
      destruct (fst (revertSettings (m_iface scheduler))) eqn:R.
      * erewrite timer_rounds_stopped; [| reflexivity ..].
        exists [ev_sleep delay; ev_revertSettings true; ev_requestStop], 1%nat.
        eexists. cbn. repeat split; auto. lia.
      * match goal with
        | |- context [timer_rounds n ?w0] =>
            destruct (timer_rounds_fixed_interval DEFAULT_RETRY_INTERVAL n w0 _
                        (revert_function false) eq_refl eq_refl eq_refl)
              as (es & k & scheduler' & Hk & Ht & Hs & Ha & Hi & Hstop)
        end.
        exists ([ev_sleep delay; ev_revertSettings false] ++ es)%list, (S k), scheduler'.
        rewrite Ht, Hi. cbn [trace sleeps attempts duration_sequence app].
        rewrite Hs, Ha, <- app_assoc.
        repeat split; auto; try lia. intro L. apply Hstop. lia.
  - intros scheduler Es Hd reverted iface.
    assert (Ew : w' = {| DD_DATA_config_revert_delay := delay;
                DD_DATA_sm_instance :=
                  Some (if reverted then stopped iface
                        else {| m_iface := iface;
                                m_retry_function := Some (revert_function false);
                                m_pending_durations := [DEFAULT_RETRY_INTERVAL] |});
                trace := (trace w ++
                            [ev_lock;
                             ev_schedule (revert_function false)
                               {| m_sleep_durations := [DEFAULT_RETRY_INTERVAL];
                                  m_execution := Execution.Immediate |};
                             ev_revertSettings reverted]
                            ++ (if reverted then [ev_requestStop] else [])
                            ++ [ev_unlock])%list |}).
    { unfold w'. rewrite (revert_configuration_world w scheduler Es).
      fold delay. apply Z.ltb_ge in Hd. rewrite Hd.
      unfold schedule. cbn [m_execution m_sleep_durations].
      rewrite exec_revert_function. cbv zeta. rewrite orb_false_r.
      fold reverted. fold iface. cbn [fst snd].
      destruct reverted; reflexivity. }
    split; [exact Ew |].
    rewrite Ew. intro n. destruct reverted eqn:R.
    + exists [], O. eexists.
      erewrite timer_rounds_stopped; [| reflexivity ..].
      cbn. rewrite app_nil_r. repeat split; auto. lia.
    + match goal with
      | |- context [timer_rounds n ?w0] =>
          destruct (timer_rounds_fixed_interval DEFAULT_RETRY_INTERVAL n w0 _
                      (revert_function false) eq_refl eq_refl eq_refl)
            as (es & k & scheduler' & Hk & Ht & Hs & Ha & Hi & Hstop)
      end.
      exists es, k, scheduler'. rewrite Ht, Hi. repeat split; auto.
  - intro iface. rewrite exec_revert_function. cbn. now rewrite orb_false_r.
  - intro Es. unfold w', revert_configuration, revert_configuration_unlocked, bind,
      lock, unlock, get_sm_instance, emit, ret.
    cbn [DD_DATA_sm_instance DD_DATA_config_revert_delay trace].
    rewrite Es. cbn. rewrite <- app_assoc. reflexivity.
  - intros scheduler n Es. exact (revert_configuration_timer_trace w scheduler n Es).
  - intros scheduler d1 d2 d3 more Es R1 R2 R3. unfold w'.
    rewrite (revert_configuration_world w scheduler Es). fold delay.
    split; intro Hd.
    + apply Z.ltb_lt in Hd. rewrite Hd.
      unfold schedule. cbn [m_execution m_sleep_durations fst snd Nat.add].
      rewrite timer_rounds_succ.
      erewrite (timer_round_running _ _ (revert_function false)); [| reflexivity ..].
      cbn [m_iface m_pending_durations DD_DATA_config_revert_delay next_duration
             fst snd trace].
      rewrite (exec_revert_false _ _ _ R1).
      rewrite timer_rounds_succ.
      erewrite (timer_round_running _ _ (revert_function false)); [| reflexivity ..].
      cbn [m_iface m_pending_durations DD_DATA_config_revert_delay next_duration
             fst snd trace].
      rewrite (exec_revert_false _ _ _ R2).
      rewrite timer_rounds_succ.
      erewrite (timer_round_running _ _ (revert_function false)); [| reflexivity ..].
      cbn [m_iface m_pending_durations DD_DATA_config_revert_delay next_duration
             fst snd trace].
      rewrite (exec_revert_false _ _ _ R3).
      erewrite timer_rounds_stopped; [| reflexivity ..].
      cbn [snd]. rewrite <- !app_assoc. reflexivity.
    + apply Z.ltb_ge in Hd. rewrite Hd.
      unfold schedule. cbn [m_execution m_sleep_durations Nat.add].
      rewrite (exec_revert_false _ _ _ R1). cbn [fst snd].
      rewrite timer_rounds_succ.
      erewrite (timer_round_running _ _ (revert_function false)); [| reflexivity ..].
      cbn [m_iface m_pending_durations DD_DATA_config_revert_delay next_duration
             fst snd trace].
      rewrite (exec_revert_false _ _ _ R2).
      rewrite timer_rounds_succ.
      erewrite (timer_round_running _ _ (revert_function false)); [| reflexivity ..].
      cbn [m_iface m_pending_durations DD_DATA_config_revert_delay next_duration
             fst snd trace].
      rewrite (exec_revert_false _ _ _ R3).
      erewrite timer_rounds_stopped; [| reflexivity ..].
      cbn [snd]. rewrite <- !app_assoc. reflexivity.
Qed.

Lemma revert_configuration_unlocked_immediate (option : revert_option_e.t) (w : world D)
    (scheduler : RetryScheduler D) :
  DD_DATA_sm_instance w = Some scheduler ->
  option <> revert_option_e.try_indefinitely_with_delay ->
  let try_once := revert_option_e.eqb option revert_option_e.try_once in
  let options :=
    {| m_sleep_durations := [DEFAULT_RETRY_INTERVAL];
       m_execution := Execution.Immediate |} in
  let reverted := fst (revertSettings (m_iface scheduler)) in
  let iface := snd (revertSettings (m_iface scheduler)) in
  revert_configuration_unlocked option w =
    (tt, {| DD_DATA_config_revert_delay := DD_DATA_config_revert_delay w;
            DD_DATA_sm_instance :=
              Some (if reverted || try_once then stopped iface
                    else {| m_iface := iface;
                            m_retry_function := Some (revert_function try_once);
                            m_pending_durations := [DEFAULT_RETRY_INTERVAL] |});
            trace := (trace w ++
                        [ev_schedule (revert_function try_once) options;
                         ev_revertSettings reverted]
                        ++ (if reverted || try_once then [ev_requestStop] else []))%list |}).
Proof.
  intros Es Ho try_once options reverted iface.
  unfold revert_configuration_unlocked, bind, get_sm_instance, get_config_revert_delay.
  rewrite Es.
  replace (revert_option_e.eqb option revert_option_e.try_indefinitely_with_delay)
    with false by (destruct option; try reflexivity; now contradiction Ho).
  cbn [andb]. rewrite sm_instance_schedule_world.
  unfold schedule. cbn [m_execution m_sleep_durations].
  rewrite exec_revert_function. cbv zeta.
  fold try_once. fold reverted. fold iface. fold options.
  destruct (reverted || try_once); reflexivity.
Qed.

Lemma revert_configuration_unlocked_unsupported (option : revert_option_e.t) (w : world D) :
  DD_DATA_sm_instance w = None ->
  revert_configuration_unlocked option w = (tt, w).
Proof.
  intro Es. unfold revert_configuration_unlocked, bind, get_sm_instance.
  now rewrite Es.
Qed.

(** C6. [init], between taking and releasing the lock, does this and in
    this order: on the scheduler there is, if any, one revert attempt in the
    calling thread that asks to stop whatever the revert returned; the
    configured revert delay is stored; the scheduler pointer is reset; the
    settings manager is constructed. When, and only when, that gives a
    manager, a new scheduler is stored for it, the devices are enumerated, and
    a revert is scheduled on it that is retried on the fixed interval until it
    succeeds. The destructor of the returned handle makes one such single
    attempt and resets the scheduler pointer. *)
Theorem init_steps (persistence_filepath : string) (video_config : video_t) (w : world D) :
  let once_options :=
    {| m_sleep_durations := [DEFAULT_RETRY_INTERVAL];
       m_execution := Execution.Immediate |} in
  let cleanup :=
    match DD_DATA_sm_instance w with
    | Some scheduler =>
        [ev_schedule (revert_function true) once_options;
         ev_revertSettings (fst (revertSettings (m_iface scheduler)));
         ev_requestStop]
    | None => []
    end in
  let delay := config_revert_delay (dd video_config) in
  snd (init platform_settings_manager persistence_filepath video_config w) =
    match platform_settings_manager with
    | Some make =>
        let settings_manager :=
          make persistence_filepath
            (if wa_hdr_toggle (dd video_config) then Some 500 else None) in
        let reverted := fst (revertSettings settings_manager) in
        let iface := snd (revertSettings settings_manager) in
        {| DD_DATA_config_revert_delay := delay;
           DD_DATA_sm_instance :=
             Some (if reverted then stopped iface
                   else {| m_iface := iface;
                           m_retry_function := Some (revert_function false);
                           m_pending_durations := [DEFAULT_RETRY_INTERVAL] |});
           trace := (trace w ++ [ev_lock] ++ cleanup ++
                       [ev_config_revert_delay delay;
                        ev_sm_instance false;
                        ev_make_settings_manager true;
                        ev_sm_instance true;
                        ev_enumAvailableDevices (enumAvailableDevices settings_manager);
                        ev_schedule (revert_function false) once_options;
                        ev_revertSettings reverted]
                       ++ (if reverted then [ev_requestStop] else [])
                       ++ [ev_unlock])%list |}
    | None =>
        {| DD_DATA_config_revert_delay := delay;
           DD_DATA_sm_instance := None;
           trace := (trace w ++ [ev_lock] ++ cleanup ++
                       [ev_config_revert_delay delay;
                        ev_sm_instance false;
                        ev_make_settings_manager false;
                        ev_unlock])%list |}
    end
  /\ snd (deinit w) =
       {| DD_DATA_config_revert_delay := DD_DATA_config_revert_delay w;
          DD_DATA_sm_instance := None;
          trace := (trace w ++ [ev_lock] ++ cleanup ++
                      [ev_sm_instance false; ev_unlock])%list |}
  /\ (attempts cleanup <= 1)%nat
  /\ stop_requests cleanup = attempts cleanup.
Proof.
  intros once_options cleanup delay.
  assert (Cleanup :
    forall w0 : world D,
      DD_DATA_sm_instance w0 = DD_DATA_sm_instance w ->
      exists sm,
        revert_configuration_unlocked revert_option_e.try_once w0 =
          (tt, {| DD_DATA_config_revert_delay := DD_DATA_config_revert_delay w0;
                  DD_DATA_sm_instance := sm;
                  trace := (trace w0 ++ cleanup)%list |})).
  { intros w0 E0. unfold cleanup.
    destruct (DD_DATA_sm_instance w) as [scheduler|] eqn:Es.
    - eexists.
      rewrite (revert_configuration_unlocked_immediate _ w0 scheduler E0)
        by discriminate.
      cbn [revert_option_e.eqb]. rewrite orb_true_r. reflexivity.
    - exists None. rewrite revert_configuration_unlocked_unsupported by assumption.
      rewrite app_nil_r. destruct w0; cbn in *. now subst. }
  split; [| split].
  - unfold init. unfold bind at 1. unfold lock at 1. unfold emit at 1.
    unfold bind at 1.
    match goal with
    | |- context [revert_configuration_unlocked _ ?w0] =>
        destruct (Cleanup w0 eq_refl) as [sm ->]
    end.
    unfold make_settings_manager.
    destruct platform_settings_manager as [make|].
    + unfold bind, set_config_revert_delay, set_sm_instance, bind, emit,
        put_sm_instance, sm_instance_execute, ret, unlock, emit.
      cbn [DD_DATA_config_revert_delay DD_DATA_sm_instance trace m_iface stopped].
      erewrite (revert_configuration_unlocked_immediate revert_option_e.try_indefinitely);
        [| reflexivity | discriminate].
      cbn [DD_DATA_config_revert_delay DD_DATA_sm_instance trace snd m_iface stopped
             revert_option_e.eqb].
      rewrite orb_false_r.
      destruct (fst (revertSettings (make persistence_filepath _)));
        rewrite <- !app_assoc; reflexivity.
    + unfold bind, set_config_revert_delay, set_sm_instance, bind, emit,
        put_sm_instance, ret, unlock, emit.
      cbn [DD_DATA_config_revert_delay DD_DATA_sm_instance trace snd].
      rewrite <- !app_assoc; reflexivity.
  - unfold deinit. unfold bind at 1. unfold lock at 1. unfold emit at 1.
    unfold bind at 1.
    match goal with
    | |- context [revert_configuration_unlocked _ ?w0] =>
        destruct (Cleanup w0 eq_refl) as [sm ->]
    end.
    unfold bind, set_sm_instance, bind, emit, put_sm_instance, unlock, emit.
    cbn [DD_DATA_config_revert_delay DD_DATA_sm_instance trace snd].
    rewrite <- !app_assoc; reflexivity.
  - unfold cleanup. destruct (DD_DATA_sm_instance w); cbn; split; auto.
Qed.

End OrchestratorProperties.

(** * Concrete instances *)

(** C1 (as stated) fails: "00059.9500" does not give 59950/100. *)
Lemma parse_refresh_rate_string_00059_9500_not_59950_100 :
  ~ (exists dm double_to_uint_out_of_range output,
        parse_refresh_rate_string dm double_to_uint_out_of_range "00059.9500" output =
          (true, Some {| m_numerator := 59950; m_denominator := 100 |})).
Proof.
  intros (dm & oob & output & E).
  destruct dm; vm_compute in E; discriminate E.
Qed.

Lemma parse_refresh_rate_string_rational_witness :
  parse_refresh_rate_string LLP64 wrap_uint " 0120.250 " None =
    (true, Some {| m_numerator := 12025; m_denominator := 100 |}).
Proof.
  apply (proj1 (parse_refresh_rate_string_rational LLP64 wrap_uint)
           " 0120.250 " "0120" "250" None).
  - split; reflexivity.
  - split; reflexivity.
  - reflexivity.
  - vm_compute. discriminate.
  - vm_compute. lia.
  - vm_compute. discriminate.
Defined.

Lemma parse_resolution_string_cases_witness :
  parse_resolution_string LP64 "   " None = (true, None)
  /\ parse_resolution_string LP64 " 1920x1080 " None =
       (true, Some {| m_width := 1920; m_height := 1080 |})
  /\ parse_resolution_string LP64 "1920 x 1080" None = (false, None)
  /\ parse_resolution_string LP64 "4294967296x1080" None = (false, None).
Proof.
  split; [| split; [| split]].
  - apply (proj1 (parse_resolution_string_cases LP64 "   " None)). reflexivity.
  - apply (proj1 (proj2 (parse_resolution_string_cases LP64 " 1920x1080 " None))
             "1920" "1080").
    + split; reflexivity.
    + split; reflexivity.
    + right. reflexivity.
    + vm_compute. intro E. discriminate E.
    + vm_compute. intro E. discriminate E.
  - apply (proj1 (proj2 (proj2 (parse_resolution_string_cases LP64 "1920 x 1080" None)))).
    + discriminate.
    + intros w h Hw Hh E.
      assert (R : resolution_regex (trim_copy "1920 x 1080") = Some (w, h))
        by (apply resolution_regex_spec; auto).
      vm_compute in R. discriminate R.
  - apply (proj1 (proj2 (proj2 (proj2
             (parse_resolution_string_cases LP64 "4294967296x1080" None))))
             "4294967296" "1080").
    + split; reflexivity.
    + split; reflexivity.
    + left. reflexivity.
    + left. reflexivity.
Defined.

Lemma parse_configuration_disabled_witness :
  parse_configuration LLP64 wrap_uint
    (sample_video config_option_e.disabled
       resolution_option_e.manual "1920x" refresh_rate_option_e.manual "59.9.5")
    (sample_session true) = configuration_disabled_tag_t.
Proof. apply parse_configuration_disabled. reflexivity. Defined.

(** C2 (as stated) fails: with the optimize-settings flag not set, manual
    mode with an empty manual resolution gives a configuration. *)
Lemma parse_configuration_manual_resolution_empty_without_sops :
  let video_config :=
    sample_video config_option_e.ensure_active
      resolution_option_e.manual "" refresh_rate_option_e.automatic "" in
  let session := sample_session false in
  resolution_option (dd video_config) = resolution_option_e.manual
  /\ manual_resolution (dd video_config) = ""
  /\ forall dm double_to_uint_out_of_range,
       parse_configuration dm double_to_uint_out_of_range video_config session =
         parsed_config
           {| m_device_id := "DISPLAY1";
              m_device_prep := DevicePreparation.EnsureActive;
              m_resolution := None;
              m_refresh_rate := Some {| m_numerator := 120; m_denominator := 1 |};
              m_hdr_state := Some HdrState.Enabled |}
       /\ parse_configuration dm double_to_uint_out_of_range video_config session <>
            failed_to_parse_tag_t.
Proof.
  cbv zeta. repeat split. discriminate.
Qed.

Lemma parse_configuration_manual_resolution_empty_witness :
  parse_configuration LLP64 wrap_uint
    (sample_video config_option_e.ensure_active
       resolution_option_e.manual "" refresh_rate_option_e.automatic "")
    (sample_session true) = failed_to_parse_tag_t.
Proof.
  apply parse_configuration_manual_resolution_empty.
  - discriminate.
  - reflexivity.
  - reflexivity.
  - reflexivity.
Defined.



Lemma configure_display_retries_witness :
  let w :=
    sample_world 0
      [ApplyResult.ApiTemporarilyUnavailable; ApplyResult.ApiTemporarilyUnavailable;
       ApplyResult.ApiTemporarilyUnavailable; ApplyResult.Ok; ApplyResult.PermanentFailure]
      [] in
  let w' := snd (timer_rounds (3 + 7) (snd (configure_display_config sample_config w))) in
  attempts (trace w') = 4%nat
  /\ stop_requests (trace w') = 1%nat
  /\ sleeps (trace w') = [5000; 5000; 5000]
  /\ DD_DATA_sm_instance w' =
       Some (stopped {| apply_script := [ApplyResult.PermanentFailure];
                        revert_script := [] |}).
Proof.
  cbv zeta.
  pose proof (proj2 configure_display_retries_while_temporarily_unavailable
                sample_config
                (sample_world 0
                   [ApplyResult.ApiTemporarilyUnavailable;
                    ApplyResult.ApiTemporarilyUnavailable;
                    ApplyResult.ApiTemporarilyUnavailable; ApplyResult.Ok;
                    ApplyResult.PermanentFailure] [])) as P.
  edestruct (fun scheduler d1 d2 d3 d4 => P scheduler d1 d2 d3 d4 7%nat)
    as (E & _ & _); [reflexivity ..|].
  rewrite E. repeat split.
Defined.

Lemma configure_display_dispatch_witness :
  let w := sample_world 3000 [] [] in
  configure_display LLP64 wrap_uint
    (sample_video config_option_e.ensure_primary
       resolution_option_e.automatic "" refresh_rate_option_e.manual "fast")
    (sample_session true) w = (tt, w)
  /\ configure_display LLP64 wrap_uint
       (sample_video config_option_e.disabled
          resolution_option_e.automatic "" refresh_rate_option_e.manual "fast")
       (sample_session true) w = revert_configuration w
  /\ configure_display LLP64 wrap_uint
       (sample_video config_option_e.ensure_active
          resolution_option_e.automatic "" refresh_rate_option_e.automatic "")
       (sample_session true) w = configure_display_config sample_config w.
Proof.
  cbv zeta. split; [| split].
  - apply (proj1 (configure_display_dispatch LLP64 wrap_uint _ _ _)). reflexivity.
  - apply (proj1 (proj2 (configure_display_dispatch LLP64 wrap_uint _ _ _))). reflexivity.
  - apply (proj2 (proj2 (configure_display_dispatch LLP64 wrap_uint _ _ _))). reflexivity.
Defined.

Lemma revert_configuration_first_attempt_delay_witness :
  trace (snd (revert_configuration (sample_world 3000 [] [false; true]))) =
    [ev_lock;
     ev_schedule (revert_function false)
       {| m_sleep_durations := [3000; 5000]; m_execution := Execution.ScheduledOnly |};
     ev_unlock]
  /\ trace (snd (revert_configuration (sample_world 0 [] [false; true]))) =
       [ev_lock;
        ev_schedule (revert_function false)
          {| m_sleep_durations := [5000]; m_execution := Execution.Immediate |};
        ev_revertSettings false;
        ev_unlock]
  /\ trace (snd (timer_rounds 7 (snd (revert_configuration
                                        (sample_world 3000 [] [false; false; true]))))) =
       [ev_lock;
        ev_schedule (revert_function false)
          {| m_sleep_durations := [3000; 5000]; m_execution := Execution.ScheduledOnly |};
        ev_unlock;
        ev_sleep 3000;
        ev_revertSettings false;
        ev_sleep 5000;
        ev_revertSettings false;
        ev_sleep 5000;
        ev_revertSettings true;
        ev_requestStop]
  /\ trace (snd (timer_rounds 6 (snd (revert_configuration
                                        (sample_world 0 [] [false; false; true]))))) =
       [ev_lock;
        ev_schedule (revert_function false)
          {| m_sleep_durations := [5000]; m_execution := Execution.Immediate |};
        ev_revertSettings false;
        ev_unlock;
        ev_sleep 5000;
        ev_revertSettings false;
        ev_sleep 5000;
        ev_revertSettings true;
        ev_requestStop].
Proof.
  split; [| split; [| split]].
  - destruct (proj1 (revert_configuration_first_attempt_delay
                       (sample_world 3000 [] [false; true])) _ eq_refl eq_refl) as [E _].
    rewrite E. reflexivity.
  - destruct (proj1 (proj2 (revert_configuration_first_attempt_delay
                              (sample_world 0 [] [false; true]))) _ eq_refl) as [E _].
    + discriminate.
    + rewrite E. reflexivity.
  - destruct (proj2 (proj2 (proj2 (proj2 (proj2
                (revert_configuration_first_attempt_delay
                   (sample_world 3000 [] [false; false; true]))))))
                (stopped {| apply_script := []; revert_script := [false; false; true] |})
                {| apply_script := []; revert_script := [false; true] |}
                {| apply_script := []; revert_script := [true] |}
                {| apply_script := []; revert_script := [] |}
                4%nat) as [E _]; [reflexivity .. |].
    apply (f_equal trace) in E; [| reflexivity].
    vm_compute in E. vm_compute. exact E.
  - destruct (proj2 (proj2 (proj2 (proj2 (proj2
                (revert_configuration_first_attempt_delay
                   (sample_world 0 [] [false; false; true]))))))
                (stopped {| apply_script := []; revert_script := [false; false; true] |})
                {| apply_script := []; revert_script := [false; true] |}
                {| apply_script := []; revert_script := [true] |}
                {| apply_script := []; revert_script := [] |}
                4%nat) as [_ E]; [reflexivity .. |].
    apply (f_equal trace) in E; [| discriminate].
    vm_compute in E. vm_compute. exact E.
Defined.

(** * Further properties of the parser *)

Lemma decimal_value_acc (s : string) (acc : Z) :
  decimal_value acc s = acc * 10 ^ Z.of_nat (String.length s) + decimal_value 0 s.
Proof.
  revert acc. induction s as [|c s IH]; intro acc.
  - cbn [decimal_value String.length]. change (10 ^ Z.of_nat 0) with 1. lia.
  - cbn [decimal_value String.length].
    rewrite (IH (10 * acc + digit_value c)), (IH (10 * 0 + digit_value c)).
    rewrite Nat2Z.inj_succ, Z.pow_succ_r by lia. ring.
Qed.

Lemma decimal_value_append (a b : string) (acc : Z) :
  decimal_value acc (a ++ b) = decimal_value (decimal_value acc a) b.
Proof.
  revert acc. induction a as [|c a IH]; intro acc; [reflexivity |].
  cbn [append decimal_value]. apply IH.
Qed.

Lemma is_zero_char (c : ascii) : is_zero c = true -> c = "0"%char.
Proof. unfold is_zero. apply Ascii.eqb_eq. Qed.

Lemma decimal_value_zeros (z : string) :
  all_chars is_zero z = true -> decimal_value 0 z = 0.
Proof.
  induction z as [|c z IH]; [reflexivity |].
  cbn [all_chars decimal_value]. intro E. apply andb_true_iff in E as [Ec Ez].
  apply is_zero_char in Ec. subst c. exact (IH Ez).
Qed.

Lemma decimal_value_trim_left (s : string) :
  decimal_value 0 (trim_left_copy_if s is_zero) = decimal_value 0 s.
Proof.
  induction s as [|c s IH]; [reflexivity |].
  cbn [trim_left_copy_if]. destruct (is_zero c) eqn:E; [| reflexivity].
  apply is_zero_char in E. subst c. exact IH.
Qed.

Lemma decimal_value_integer_digits (s : string) :
  decimal_value 0 (integer_digits s) = decimal_value 0 s.
Proof.
  unfold integer_digits. destruct (empty (trim_left_copy_if s is_zero)) eqn:E.
  - apply empty_true in E. rewrite <- (decimal_value_trim_left s), E. reflexivity.
  - apply decimal_value_trim_left.
Qed.

(** What [trim_right_copy_if] removes is a run of characters satisfying the
    predicate. *)
Lemma trim_right_copy_if_split (s : string) (p : ascii -> bool) :
  exists removed,
    s = (trim_right_copy_if s p ++ removed)%string /\ all_chars p removed = true.
Proof.
  induction s as [|c s (removed & E & A)].
  - exists "". split; reflexivity.
  - cbn [trim_right_copy_if].
    destruct (empty (trim_right_copy_if s p)) eqn:Ek; cbn [andb].
    + apply empty_true in Ek. rewrite Ek in E. cbn [append] in E.
      destruct (p c) eqn:Pc.
      * exists (String c s). split; [reflexivity |].
        cbn [all_chars]. rewrite Pc. now rewrite E.
      * exists removed. rewrite Ek. cbn [append]. split; [now rewrite <- E | exact A].
    + exists removed. cbn [append]. split; [now rewrite <- E | exact A].
Qed.

Lemma length_append (a b : string) :
  String.length (a ++ b) = (String.length a + String.length b)%nat.
Proof. induction a as [|c a IH]; [reflexivity |]. cbn. now rewrite IH. Qed.

Lemma take_digits_fst_digits (s : string) : all_digits (fst (take_digits s)) = true.
Proof.
  destruct (take_digits s) as [d r] eqn:E.
  now apply take_digits_spec in E as (_ & Hd & _).
Qed.

(** X1. [stou] never gives a value outside the range of [unsigned int], whatever
    the string and the width of [unsigned long]. *)
Theorem stou_range (dm : data_model) (value : string) (result : Z) :
  stou dm value = inl result -> 0 <= result <= UINT_MAX.
Proof.
  unfold stou, stoul.
  destruct (take_sign (trim_left_copy_if value is_space)) as [negative text].
  pose proof (take_digits_fst_digits text) as Hd.
  destruct (empty (fst (take_digits text))); [discriminate |].
  pose proof (decimal_value_lower _ 0 Hd (Z.le_refl 0)) as Hv.
  destruct (ULONG_MAX dm <? decimal_value 0 (fst (take_digits text))); [discriminate |].
  match goal with
  | |- context [UINT_MAX <? ?r] => destruct (UINT_MAX <? r) eqn:E; [discriminate |]
  end.
  intro R. inversion R; subst; clear R. apply Z.ltb_ge in E. split; [| exact E].
  destruct negative; [| exact Hv].
  apply Z.mod_pos_bound. destruct dm; reflexivity.
Qed.

Lemma stou_range_witness : 0 <= 4294967295 <= UINT_MAX.
Proof. apply (stou_range LLP64 " -1" 4294967295). reflexivity. Defined.

(** X2. On a group of digits [stou] gives the same result with a 32-bit and with
    a 64-bit [unsigned long]: the value, or [out_of_range] above [UINT_MAX]. *)
Theorem stou_data_model_independent (value : string) :
  digit_group value ->
  stou LLP64 value = stou LP64 value
  /\ (decimal_value 0 value <= UINT_MAX -> stou LP64 value = inl (decimal_value 0 value))
  /\ (UINT_MAX < decimal_value 0 value -> stou LP64 value = inr out_of_range).
Proof.
  intro Hg. rewrite !stou_digit_group by assumption. repeat split.
  - intro V. apply Z.ltb_ge in V. now rewrite V.
  - intro V. apply Z.ltb_lt in V. now rewrite V.
Qed.

Lemma stou_data_model_independent_witness :
  stou LLP64 "99999999999999999999" = stou LP64 "99999999999999999999".
Proof.
  apply (proj1 (stou_data_model_independent "99999999999999999999"
                  (conj eq_refl eq_refl))).
Defined.

(** ** White space around the input *)

Lemma trim_left_all (l : string) (p : ascii -> bool) :
  all_chars p l = true -> trim_left_copy_if l p = "".
Proof.
  induction l as [|c l IH]; [reflexivity |].
  cbn [all_chars trim_left_copy_if]. intro E. apply andb_true_iff in E as [-> El].
  exact (IH El).
Qed.

Lemma trim_right_all (r : string) (p : ascii -> bool) :
  all_chars p r = true -> trim_right_copy_if r p = "".
Proof.
  induction r as [|c r IH]; [reflexivity |].
  cbn [all_chars trim_right_copy_if]. intro E. apply andb_true_iff in E as [-> Er].
  now rewrite (IH Er).
Qed.

Lemma trim_left_prefix (l t : string) (p : ascii -> bool) :
  all_chars p l = true -> trim_left_copy_if (l ++ t) p = trim_left_copy_if t p.
Proof.
  induction l as [|c l IH]; [reflexivity |].
  cbn [all_chars append trim_left_copy_if]. intro E.
  apply andb_true_iff in E as [-> El]. exact (IH El).
Qed.

Lemma trim_right_suffix (t r : string) (p : ascii -> bool) :
  all_chars p r = true -> trim_right_copy_if (t ++ r) p = trim_right_copy_if t p.
Proof.
  intro E. induction t as [|c t IH].
  - cbn [append]. now rewrite trim_right_all.
  - cbn [append trim_right_copy_if]. now rewrite IH.
Qed.

Lemma trim_left_append (s r : string) (p : ascii -> bool) :
  trim_left_copy_if (s ++ r) p =
    if empty (trim_left_copy_if s p) then trim_left_copy_if r p
    else (trim_left_copy_if s p ++ r)%string.
Proof.
  induction s as [|c s IH]; [reflexivity |].
  cbn [append trim_left_copy_if]. destruct (p c); [exact IH | reflexivity].
Qed.

(** White space on both sides of a string does not survive [trim_copy]. *)
Lemma trim_copy_padding (l s r : string) :
  all_chars is_space l = true -> all_chars is_space r = true ->
  trim_copy (l ++ s ++ r) = trim_copy s.
Proof.
  intros Hl Hr. unfold trim_copy.
  rewrite trim_left_prefix by assumption. rewrite trim_left_append.
  destruct (empty (trim_left_copy_if s is_space)) eqn:E.
  - apply empty_true in E. rewrite E, trim_left_all by assumption. reflexivity.
  - now apply trim_right_suffix.
Qed.

(** X3. Both string parsers give the same result when the input is surrounded
    by white space (blanks, tabs, line breaks). *)
Theorem parsers_ignore_surrounding_space
    (dm : data_model) (double_to_uint_out_of_range : Z -> Z) (l s r : string) :
  all_chars is_space l = true -> all_chars is_space r = true ->
  (forall output,
      parse_resolution_string dm (l ++ s ++ r) output =
        parse_resolution_string dm s output)
  /\ (forall output,
        parse_refresh_rate_string dm double_to_uint_out_of_range (l ++ s ++ r) output =
          parse_refresh_rate_string dm double_to_uint_out_of_range s output).
Proof.
  intros Hl Hr. split; intro output.
  - unfold parse_resolution_string. now rewrite trim_copy_padding.
  - unfold parse_refresh_rate_string. now rewrite trim_copy_padding.
Qed.

Lemma parsers_ignore_surrounding_space_witness :
  parse_resolution_string LLP64 (String "009" " " ++ "1920x1080" ++ String "010" " ")%string None =
    parse_resolution_string LLP64 "1920x1080" None.
Proof.
  apply (proj1 (parsers_ignore_surrounding_space LLP64 wrap_uint
                  (String "009" " ") "1920x1080" (String "010" " ")
                  eq_refl eq_refl)).
Defined.

(** ** The output reference and the accepted strings *)

Section ParserExtras.

Variable dm : data_model.
Variable double_to_uint_out_of_range : Z -> Z.

(** X4. A parser that reports an error has left the output reference as it was,
    and one that reports success has written a value that does not depend on
    what the reference held before. *)
Theorem parsers_output_reference (input : string) :
  (forall output,
      parse_resolution_string dm input output = (false, output)
      \/ exists value, forall previous,
           parse_resolution_string dm input previous = (true, value))
  /\ (forall output,
        parse_refresh_rate_string dm double_to_uint_out_of_range input output = (false, output)
        \/ exists value, forall previous,
             parse_refresh_rate_string dm double_to_uint_out_of_range input previous =
               (true, value)).
Proof.
  split; intro output.
  - unfold parse_resolution_string.
    destruct (resolution_regex (trim_copy input)) as [[m1 m2]|].
    + destruct (stou dm m1); [destruct (stou dm m2) |];
        first [left; reflexivity | right; eexists; intro; reflexivity].
    + destruct (empty (trim_copy input));
        first [left; reflexivity | right; eexists; intro; reflexivity].
  - unfold parse_refresh_rate_string.
    destruct (refresh_rate_regex (trim_copy input)) as [[m1 m2]|].
    + cbv zeta. destruct (negb (empty _)); cbv iota; destruct (stou dm _);
        first [left; reflexivity | right; eexists; intro; reflexivity].
    + destruct (empty (trim_copy input));
        first [left; reflexivity | right; eexists; intro; reflexivity].
Qed.

Lemma parse_resolution_string_success (input : string) (output : option Resolution)
    (r : Resolution) :
  parse_resolution_string dm input output = (true, Some r) ->
  exists w h,
    digit_group w /\ digit_group h /\ trim_copy input = (w ++ "x" ++ h)%string
    /\ m_width r = decimal_value 0 w /\ m_height r = decimal_value 0 h
    /\ 0 <= m_width r <= UINT_MAX /\ 0 <= m_height r <= UINT_MAX.
Proof.
  intro E.
  destruct (resolution_regex (trim_copy input)) as [[w h]|] eqn:M.
  - apply resolution_regex_spec in M as (Hw & Hh & Ht).
    rewrite (parse_resolution_string_matched dm input w h) in E by assumption.
    destruct (decimal_value 0 w <=? UINT_MAX) eqn:Vw; [| discriminate E].
    destruct (decimal_value 0 h <=? UINT_MAX) eqn:Vh; [| discriminate E].
    cbn [andb] in E. inversion E; subst; clear E. cbn [m_width m_height].
    apply Z.leb_le in Vw, Vh.
    pose proof (decimal_value_lower w 0 (proj2 Hw) (Z.le_refl 0)).
    pose proof (decimal_value_lower h 0 (proj2 Hh) (Z.le_refl 0)).
    unfold UINT_MAX in *.
    destruct Hw as [Nw Dw], Hh as [Nh Dh].
    exists w, h. repeat split; auto; lia.
  - rewrite parse_resolution_string_unmatched in E by assumption.
    destruct (empty (trim_copy input)); discriminate E.
Qed.

(** X5. [parse_resolution_string] reports success exactly on the inputs that,
    once trimmed, are empty or are [<digits>x<digits>] with both numbers at
    most [UINT_MAX]. *)
Theorem parse_resolution_string_accepts (input : string) (output : option Resolution) :
  fst (parse_resolution_string dm input output) = true <->
  trim_copy input = ""
  \/ exists w h,
       digit_group w /\ digit_group h /\ trim_copy input = (w ++ "x" ++ h)%string
       /\ decimal_value 0 w <= UINT_MAX /\ decimal_value 0 h <= UINT_MAX.
Proof.
  split.
  - intro E.
    destruct (resolution_regex (trim_copy input)) as [[w h]|] eqn:M.
    + apply resolution_regex_spec in M as (Hw & Hh & Ht).
      rewrite (parse_resolution_string_matched dm input w h) in E by assumption.
      destruct (decimal_value 0 w <=? UINT_MAX) eqn:Vw; [| discriminate E].
      destruct (decimal_value 0 h <=? UINT_MAX) eqn:Vh; [| discriminate E].
      apply Z.leb_le in Vw, Vh. right. exists w, h. auto.
    + rewrite parse_resolution_string_unmatched in E by assumption.
      destruct (empty (trim_copy input)) eqn:Ee; [| discriminate E].
      left. now apply empty_true.
  - intros [Ht | (w & h & Hw & Hh & Ht & Vw & Vh)].
    + rewrite parse_resolution_string_unmatched; rewrite Ht; reflexivity.
    + rewrite (parse_resolution_string_matched dm input w h) by assumption.
      apply Z.leb_le in Vw, Vh. now rewrite Vw, Vh.
Qed.


Lemma digit_group_leading_zero (s : string) :
  digit_group s -> digit_group ("0" ++ s).
Proof. intros [_ Hd]. split; [reflexivity |]. cbn [append all_digits]. now rewrite Hd. Qed.


End ParserExtras.

Lemma parse_resolution_string_accepts_witness :
  fst (parse_resolution_string LLP64 " 3840x2160" None) = true.
Proof.
  apply (proj2 (parse_resolution_string_accepts LLP64 " 3840x2160" None)).
  right. exists "3840", "2160".
  split; [split; reflexivity |]. split; [split; reflexivity |].
  split; [reflexivity |]. split; vm_compute; discriminate.
Defined.


(** ** The number a refresh rate denotes *)

Section RefreshRateExtras.

Variable dm : data_model.
Variable double_to_uint_out_of_range : Z -> Z.

Lemma fraction_digits_split (f : string) :
  exists zeros,
    f = (fraction_digits f ++ zeros)%string
    /\ decimal_value 0 f =
         decimal_value 0 (fraction_digits f) * 10 ^ Z.of_nat (String.length zeros)
    /\ String.length f = (String.length (fraction_digits f) + String.length zeros)%nat.
Proof.
  destruct (trim_right_copy_if_split f is_zero) as (zeros & E & A).
  exists zeros. fold (fraction_digits f) in E. split; [exact E |]. split.
  - rewrite E at 1. rewrite decimal_value_append, decimal_value_acc.
    rewrite (decimal_value_zeros zeros A). lia.
  - rewrite E at 1. apply length_append.
Qed.

(** X7. The rational that [parse_refresh_rate_string] returns is the number the
    string writes in decimal notation: for [<integer>.<fraction>] with at most
    nine fractional digits left after the trailing zeros, numerator over
    denominator equals integer + fraction / 10^(digits of the fraction), and
    for [<integer>] it is the integer over one. The removed zeros do not
    change the value. *)
Theorem parse_refresh_rate_string_value (input : string) (output : option Rational)
    (r : Rational) :
  parse_refresh_rate_string dm double_to_uint_out_of_range input output = (true, Some r) ->
  (forall i, digit_group i -> trim_copy input = i ->
             m_numerator r = decimal_value 0 i /\ m_denominator r = 1)
  /\ (forall i f,
        digit_group i -> digit_group f -> trim_copy input = (i ++ "." ++ f)%string ->
        (String.length (fraction_digits f) <= 9)%nat ->
        0 < m_denominator r
        /\ m_numerator r * 10 ^ Z.of_nat (String.length f) =
             m_denominator r *
               (decimal_value 0 i * 10 ^ Z.of_nat (String.length f) + decimal_value 0 f)).
Proof.
  intro E. split.
  - intros i Hi Ht.
    rewrite (parse_refresh_rate_string_integer dm _ input i) in E by assumption.
    destruct (UINT_MAX <? decimal_value 0 (integer_digits i)); [discriminate E |].
    inversion E; subst r; clear E. cbn [m_numerator m_denominator].
    now rewrite decimal_value_integer_digits.
  - intros i f Hi Hf Ht Hlen.
    rewrite (parse_refresh_rate_string_fraction dm _ input i f) in E by assumption.
    destruct (fraction_digits_split f) as (zeros & Ef & Vf & Lf).
    rewrite Lf, Nat2Z.inj_add, Z.pow_add_r, Vf by lia.
    destruct (empty (fraction_digits f)) eqn:Ee.
    + destruct (UINT_MAX <? decimal_value 0 (integer_digits i)); [discriminate E |].
      inversion E; subst r; clear E. cbn [m_numerator m_denominator].
      apply empty_true in Ee. rewrite Ee, decimal_value_integer_digits.
      cbn [String.length decimal_value]. change (10 ^ Z.of_nat 0) with 1.
      split; [lia | ring].
    + destruct (UINT_MAX <? decimal_value 0 (integer_digits i ++ fraction_digits f));
        [discriminate E |].
      inversion E; subst r; clear E. cbn [m_numerator m_denominator].
      rewrite pow10_as_unsigned_int_small by assumption.
      rewrite decimal_value_append, decimal_value_acc, decimal_value_integer_digits.
      split; [apply Z.pow_pos_nonneg; lia | ring].
Qed.

Lemma fraction_digits_trailing_zero (f : string) :
  fraction_digits (f ++ "0") = fraction_digits f.
Proof.
  unfold fraction_digits. induction f as [|c f IH]; [reflexivity |].
  cbn [append trim_right_copy_if]. now rewrite IH.
Qed.

Lemma integer_digits_leading_zero (i : string) :
  integer_digits ("0" ++ i) = integer_digits i.
Proof. reflexivity. Qed.

Lemma digit_group_trailing_zero (s : string) :
  digit_group s -> digit_group (s ++ "0").
Proof.
  intros [Hne Hd]. split.
  - destruct s; [discriminate Hne | reflexivity].
  - rewrite all_digits_append, Hd. reflexivity.
Qed.

(** X8. Zeros in front of the integer part and zeros behind the fractional part
    do not change what [parse_refresh_rate_string] returns; a fractional part
    made of zeros only gives what the integer part alone gives. *)
Theorem parse_refresh_rate_string_zero_padding (i f : string) (output : option Rational) :
  digit_group i -> digit_group f ->
  (forall input padded,
      trim_copy input = (i ++ "." ++ f)%string ->
      trim_copy padded = (("0" ++ i) ++ "." ++ (f ++ "0"))%string ->
      parse_refresh_rate_string dm double_to_uint_out_of_range padded output =
        parse_refresh_rate_string dm double_to_uint_out_of_range input output)
  /\ (forall input plain,
        all_chars is_zero f = true ->
        trim_copy input = (i ++ "." ++ f)%string ->
        trim_copy plain = i ->
        parse_refresh_rate_string dm double_to_uint_out_of_range input output =
          parse_refresh_rate_string dm double_to_uint_out_of_range plain output).
Proof.
  intros Hi Hf. split.
  - intros input padded Ht Hp.
    rewrite (parse_refresh_rate_string_fraction dm _ input i f) by assumption.
    rewrite (parse_refresh_rate_string_fraction dm _ padded ("0" ++ i) (f ++ "0"))
      by auto using digit_group_leading_zero, digit_group_trailing_zero.
    now rewrite fraction_digits_trailing_zero, integer_digits_leading_zero.
  - intros input plain Hz Ht Hp.
    rewrite (parse_refresh_rate_string_fraction dm _ input i f) by assumption.
    rewrite (parse_refresh_rate_string_integer dm _ plain i) by assumption.
    unfold fraction_digits. rewrite trim_right_all by assumption. reflexivity.
Qed.

(** X9. [parse_refresh_rate_string] reports success exactly on the inputs that,
    once trimmed, are empty, or are [<digits>] with a value of at most
    [UINT_MAX], or are [<digits>.<digits>] where the integer digits (leading
    zeros removed) followed by the fractional digits (trailing zeros removed)
    denote a value of at most [UINT_MAX]. *)
Theorem parse_refresh_rate_string_accepts (input : string) (output : option Rational) :
  fst (parse_refresh_rate_string dm double_to_uint_out_of_range input output) = true <->
  trim_copy input = ""
  \/ (exists i, digit_group i /\ trim_copy input = i /\ decimal_value 0 i <= UINT_MAX)
  \/ (exists i f,
        digit_group i /\ digit_group f /\ trim_copy input = (i ++ "." ++ f)%string
        /\ decimal_value 0 (integer_digits i ++ fraction_digits f) <= UINT_MAX).
Proof.
  split.
  - intro E.
    destruct (refresh_rate_regex (trim_copy input)) as [[i [f|]]|] eqn:M.
    + apply refresh_rate_regex_fraction in M as (Hi & Hf & Ht).
      rewrite (parse_refresh_rate_string_fraction dm _ input i f) in E by assumption.
      right. right. exists i, f. repeat (split; [assumption |]).
      destruct (empty (fraction_digits f)) eqn:Ee.
      * apply empty_true in Ee. rewrite Ee, append_empty_r.
        destruct (UINT_MAX <? decimal_value 0 (integer_digits i)) eqn:V;
          [discriminate E | now apply Z.ltb_ge in V].
      * destruct (UINT_MAX <? decimal_value 0 (integer_digits i ++ fraction_digits f))
          eqn:V; [discriminate E | now apply Z.ltb_ge in V].
    + apply refresh_rate_regex_integer in M as (Hi & Ht).
      rewrite (parse_refresh_rate_string_integer dm _ input i) in E by auto.
      right. left. exists i. repeat (split; [auto |]).
      rewrite <- decimal_value_integer_digits.
      destruct (UINT_MAX <? decimal_value 0 (integer_digits i)) eqn:V;
        [discriminate E | now apply Z.ltb_ge in V].
    + unfold parse_refresh_rate_string in E. rewrite M in E.
      destruct (empty (trim_copy input)) eqn:Ee; [| discriminate E].
      left. now apply empty_true.
  - intros [Ht | [(i & Hi & Ht & V) | (i & f & Hi & Hf & Ht & V)]].
    + unfold parse_refresh_rate_string. rewrite Ht. reflexivity.
    + rewrite (parse_refresh_rate_string_integer dm _ input i) by assumption.
      rewrite <- decimal_value_integer_digits in V.
      apply Z.ltb_ge in V. now rewrite V.
    + rewrite (parse_refresh_rate_string_fraction dm _ input i f) by assumption.
      destruct (empty (fraction_digits f)) eqn:Ee.
      * apply empty_true in Ee. rewrite Ee, append_empty_r in V.
        apply Z.ltb_ge in V. now rewrite V.
      * apply Z.ltb_ge in V. now rewrite V.
Qed.

End RefreshRateExtras.

Lemma parse_refresh_rate_string_value_witness :
  0 < 100 /\ 5994 * 10 ^ 4 = 100 * (59 * 10 ^ 4 + 9400).
Proof.
  apply (proj2 (parse_refresh_rate_string_value LLP64 wrap_uint "59.9400" None
                  {| m_numerator := 5994; m_denominator := 100 |} eq_refl)
           "59" "9400").
  - split; reflexivity.
  - split; reflexivity.
  - reflexivity.
  - vm_compute. lia.
Defined.

Lemma parse_refresh_rate_string_zero_padding_witness :
  parse_refresh_rate_string LLP64 wrap_uint "0119.880" None =
    parse_refresh_rate_string LLP64 wrap_uint "119.88" None
  /\ parse_refresh_rate_string LLP64 wrap_uint "119.00" None =
       parse_refresh_rate_string LLP64 wrap_uint "119" None.
Proof.
  split.
  - apply (proj1 (parse_refresh_rate_string_zero_padding LLP64 wrap_uint "119" "88" None
                    (conj eq_refl eq_refl) (conj eq_refl eq_refl))
             "119.88" "0119.880"); reflexivity.
  - apply (proj2 (parse_refresh_rate_string_zero_padding LLP64 wrap_uint "119" "00" None
                    (conj eq_refl eq_refl) (conj eq_refl eq_refl))
             "119.00" "119"); reflexivity.
Defined.

Lemma parse_refresh_rate_string_accepts_witness :
  fst (parse_refresh_rate_string LP64 wrap_uint "0.0000000001" None) = true.
Proof.
  apply (proj2 (parse_refresh_rate_string_accepts LP64 wrap_uint "0.0000000001" None)).
  right. right. exists "0", "0000000001".
  split; [split; reflexivity |]. split; [split; reflexivity |].
  split; [reflexivity |]. vm_compute. discriminate.
Defined.

(** * Further properties of the derived configuration *)

Section ConfigurationExtras.

Variable dm : data_model.
Variable double_to_uint_out_of_range : Z -> Z.

(** X10. A derived configuration carries the output name, the device preparation
    and the HDR state of the inputs; it has no resolution exactly when the
    resolution mode is "disabled" or the session did not ask to optimize the
    settings, and no refresh rate exactly when the refresh-rate mode is
    "disabled": an automatic or manual mode that is in force never leaves its
    value unset. *)
Theorem parse_configuration_fields
    (video_config : video_t) (session : launch_session_t)
    (config : SingleDisplayConfiguration) :
  parse_configuration dm double_to_uint_out_of_range video_config session =
    parsed_config config ->
  m_device_id config = output_name video_config
  /\ parse_device_prep_option video_config = Some (m_device_prep config)
  /\ m_hdr_state config = parse_hdr_option video_config session
  /\ (m_resolution config = None <->
      resolution_option (dd video_config) = resolution_option_e.disabled
      \/ enable_sops session = false)
  /\ (m_refresh_rate config = None <->
      refresh_rate_option (dd video_config) = refresh_rate_option_e.disabled).
Proof.
  unfold parse_configuration, parse_resolution_option, parse_refresh_rate_option.
  destruct (parse_device_prep_option video_config) as [device_prep|]; [| discriminate].
  destruct (resolution_option (dd video_config)) eqn:Ro;
    destruct (refresh_rate_option (dd video_config)) eqn:Fo;
    destruct (enable_sops session) eqn:So; cbn [negb];
    repeat match goal with
      | |- context [if (0 <=? ?a) && (0 <=? ?b) then _ else _] =>
          destruct ((0 <=? a) && (0 <=? b)); cbn [negb]
      | |- context [if 0 <=? ?a then _ else _] => destruct (0 <=? a); cbn [negb]
      | |- context [parse_resolution_string ?d ?i ?o] =>
          destruct (parse_resolution_string d i o) as [[] []]; cbn [negb set_resolution m_resolution]
      | |- context [parse_refresh_rate_string ?d ?c ?i ?o] =>
          destruct (parse_refresh_rate_string d c i o) as [[] []];
          cbn [negb set_refresh_rate m_refresh_rate]
      end;
    intro E; try discriminate E; inversion E; subst; clear E;
    cbn [m_device_id m_device_prep m_hdr_state m_resolution m_refresh_rate
           set_resolution set_refresh_rate];
    repeat split; auto; try discriminate; intros [P | P]; discriminate P.
Qed.

(** X11. In an automatic mode a negative session value is an error: resolution
    mode "automatic" with the optimize flag set and a negative width or
    height, or refresh-rate mode "automatic" with a negative fps, makes
    [parse_configuration] fail to parse (device preparation not disabled). *)
Theorem parse_configuration_invalid_session
    (video_config : video_t) (session : launch_session_t) :
  configuration_option (dd video_config) <> config_option_e.disabled ->
  (resolution_option (dd video_config) = resolution_option_e.automatic
   /\ enable_sops session = true
   /\ (width session < 0 \/ height session < 0))
  \/ (refresh_rate_option (dd video_config) = refresh_rate_option_e.automatic
      /\ fps session < 0) ->
  parse_configuration dm double_to_uint_out_of_range video_config session =
    failed_to_parse_tag_t.
Proof.
  intros Ep Hbad. unfold parse_configuration.
  destruct (parse_device_prep_option_enabled _ Ep) as [device_prep ->].
  destruct Hbad as [(Ro & So & Neg) | (Fo & Neg)].
  - unfold parse_resolution_option. rewrite Ro, So. cbn [negb].
    replace ((0 <=? width session) && (0 <=? height session)) with false; [reflexivity |].
    symmetry. apply andb_false_iff.
    destruct Neg as [N | N]; [left | right]; now apply Z.leb_gt.
  - destruct (parse_resolution_option dm video_config session _) as [[] config];
      cbn [negb]; [| reflexivity].
    unfold parse_refresh_rate_option. rewrite Fo.
    apply Z.leb_gt in Neg. now rewrite Neg.
Qed.

(** X12. Without a manual mode the derivation cannot fail on valid session
    values: the resolution of the session is taken in automatic mode when the
    session asked to optimize the settings, the fps of the session over one is
    taken in automatic mode, and the rest is left unset. *)
Theorem parse_configuration_without_manual
    (video_config : video_t) (session : launch_session_t)
    (device_prep : DevicePreparation.t) :
  parse_device_prep_option video_config = Some device_prep ->
  resolution_option (dd video_config) <> resolution_option_e.manual ->
  refresh_rate_option (dd video_config) <> refresh_rate_option_e.manual ->
  (resolution_option (dd video_config) = resolution_option_e.automatic ->
   enable_sops session = true -> 0 <= width session /\ 0 <= height session) ->
  (refresh_rate_option (dd video_config) = refresh_rate_option_e.automatic ->
   0 <= fps session) ->
  parse_configuration dm double_to_uint_out_of_range video_config session =
    parsed_config
      {| m_device_id := output_name video_config;
         m_device_prep := device_prep;
         m_resolution :=
           match resolution_option (dd video_config) with
           | resolution_option_e.automatic =>
               if enable_sops session
               then Some {| m_width := width session; m_height := height session |}
               else None
           | _ => None
           end;
         m_refresh_rate :=
           match refresh_rate_option (dd video_config) with
           | refresh_rate_option_e.automatic =>
               Some {| m_numerator := fps session; m_denominator := 1 |}
           | _ => None
           end;
         m_hdr_state := parse_hdr_option video_config session |}.
Proof.
  intros Ep Rm Fm Hres Hfps.
  unfold parse_configuration, parse_resolution_option, parse_refresh_rate_option.
  rewrite Ep.
  destruct (resolution_option (dd video_config)); [| | now contradiction Rm];
    destruct (refresh_rate_option (dd video_config)); try (now contradiction Fm);
    destruct (enable_sops session); cbn [negb];
    try (destruct (Hres eq_refl eq_refl) as [Hw Hh];
         apply Z.leb_le in Hw, Hh; rewrite Hw, Hh; cbn [andb negb]);
    try (pose proof (Hfps eq_refl) as Hf; apply Z.leb_le in Hf; rewrite Hf; cbn [negb]);
    reflexivity.
Qed.

(** X13. With device preparation not disabled (its option maps to a value
    [device_prep]), both modes "manual", the optimize flag set, a manual
    resolution [<digits>x<digits>] within 32 bits and a manual refresh rate
    that parses to a value, the derived configuration holds exactly these two
    values, next to the output name, [device_prep] and the HDR state. *)
Theorem parse_configuration_manual
    (video_config : video_t) (session : launch_session_t)
    (device_prep : DevicePreparation.t) (w h : string) (rate : Rational) :
  parse_device_prep_option video_config = Some device_prep ->
  resolution_option (dd video_config) = resolution_option_e.manual ->
  refresh_rate_option (dd video_config) = refresh_rate_option_e.manual ->
  enable_sops session = true ->
  digit_group w -> digit_group h ->
  trim_copy (manual_resolution (dd video_config)) = (w ++ "x" ++ h)%string ->
  decimal_value 0 w <= UINT_MAX -> decimal_value 0 h <= UINT_MAX ->
  parse_refresh_rate_string dm double_to_uint_out_of_range
    (manual_refresh_rate (dd video_config)) None = (true, Some rate) ->
  parse_configuration dm double_to_uint_out_of_range video_config session =
    parsed_config
      {| m_device_id := output_name video_config;
         m_device_prep := device_prep;
         m_resolution :=
           Some {| m_width := decimal_value 0 w; m_height := decimal_value 0 h |};
         m_refresh_rate := Some rate;
         m_hdr_state := parse_hdr_option video_config session |}.
Proof.
  intros Ep Ro Fo So Hw Hh Ht Vw Vh Hrate.
  unfold parse_configuration, parse_resolution_option, parse_refresh_rate_option.
  rewrite Ep, Ro, Fo, So. cbn [negb m_resolution].
  rewrite (parse_resolution_string_matched dm _ w h) by assumption.
  apply Z.leb_le in Vw, Vh. rewrite Vw, Vh.
  cbn [andb negb set_resolution m_resolution m_refresh_rate].
  rewrite Hrate. reflexivity.
Qed.

(** X14. The numbers of a derived configuration are values an [unsigned int]
    holds, as far as the range checks of the source go: for session values
    that are C++ [int]s, the width and the height of the resolution and the
    numerator of the refresh rate lie between 0 and [UINT_MAX]. *)
Theorem parse_configuration_ranges
    (video_config : video_t) (session : launch_session_t)
    (config : SingleDisplayConfiguration) :
  is_int (width session) -> is_int (height session) -> is_int (fps session) ->
  parse_configuration dm double_to_uint_out_of_range video_config session =
    parsed_config config ->
  (forall r, m_resolution config = Some r ->
             0 <= m_width r <= UINT_MAX /\ 0 <= m_height r <= UINT_MAX)
  /\ (forall r, m_refresh_rate config = Some r -> 0 <= m_numerator r <= UINT_MAX).
Proof.
  unfold is_int, INT_MIN, INT_MAX. intros Iw Ih If.
  unfold parse_configuration, parse_resolution_option, parse_refresh_rate_option.
  destruct (parse_device_prep_option video_config) as [device_prep|]; [| discriminate].
  assert (Res : forall o ok r,
            parse_resolution_string dm (manual_resolution (dd video_config)) o = (ok, Some r) ->
            ok = true -> 0 <= m_width r <= UINT_MAX /\ 0 <= m_height r <= UINT_MAX).
  { intros o ok r E ->.
    destruct (parse_resolution_string_success dm _ _ _ E)
      as (w & h & _ & _ & _ & _ & _ & Rw & Rh). auto. }
  assert (Rate : forall o ok r,
            parse_refresh_rate_string dm double_to_uint_out_of_range
              (manual_refresh_rate (dd video_config)) o = (ok, Some r) ->
            ok = true -> 0 <= m_numerator r <= UINT_MAX).
  { intros o ok r E ->.
    now destruct (parse_refresh_rate_string_success dm _ _ _ _ E). }
  destruct (resolution_option (dd video_config));
    destruct (refresh_rate_option (dd video_config));
    destruct (enable_sops session); cbn [negb];
    repeat match goal with
      | |- context [if (0 <=? ?a) && (0 <=? ?b) then _ else _] =>
          let E := fresh "E" in
          destruct ((0 <=? a) && (0 <=? b)) eqn:E; cbn [negb];
          [apply andb_true_iff in E as [?%Z.leb_le ?%Z.leb_le] |]
      | |- context [if 0 <=? ?a then _ else _] =>
          let E := fresh "E" in
          destruct (0 <=? a) eqn:E; cbn [negb]; [apply Z.leb_le in E |]
      | |- context [parse_resolution_string ?d ?i ?o] =>
          let E := fresh "E" in
          destruct (parse_resolution_string d i o) as [[] []] eqn:E;
          cbn [negb set_resolution m_resolution];
          [pose proof (Res _ _ _ E eq_refl) | | |]
      | |- context [parse_refresh_rate_string ?d ?c ?i ?o] =>
          let E := fresh "E" in
          destruct (parse_refresh_rate_string d c i o) as [[] []] eqn:E;
          cbn [negb set_refresh_rate m_refresh_rate];
          [pose proof (Rate _ _ _ E eq_refl) | | |]
      end;
    intro P; try discriminate P; inversion P; subst; clear P;
    cbn [m_resolution m_refresh_rate set_resolution set_refresh_rate];
    (split; intros value Q; try discriminate Q; inversion Q; subst; clear Q;
     cbn [m_width m_height m_numerator]; unfold UINT_MAX in *; try lia; auto).
Qed.

End ConfigurationExtras.

Lemma parse_configuration_fields_witness :
  m_resolution sample_config = None <->
  resolution_option
    (dd (sample_video config_option_e.ensure_active resolution_option_e.automatic ""
           refresh_rate_option_e.automatic "")) = resolution_option_e.disabled
  \/ enable_sops (sample_session true) = false.
Proof.
  apply (parse_configuration_fields LLP64 wrap_uint
           (sample_video config_option_e.ensure_active resolution_option_e.automatic ""
              refresh_rate_option_e.automatic "")
           (sample_session true) sample_config).
  reflexivity.
Defined.

Lemma parse_configuration_invalid_session_witness :
  parse_configuration LLP64 wrap_uint
    (sample_video config_option_e.ensure_primary resolution_option_e.automatic ""
       refresh_rate_option_e.disabled "")
    {| enable_sops := true; width := 1920; height := -1; fps := 60; enable_hdr := false |} =
  failed_to_parse_tag_t.
Proof.
  apply parse_configuration_invalid_session.
  - discriminate.
  - left. split; [reflexivity |]. split; [reflexivity |]. right. reflexivity.
Defined.

Lemma parse_configuration_without_manual_witness :
  parse_configuration LP64 wrap_uint
    (sample_video config_option_e.ensure_active resolution_option_e.automatic "junk"
       refresh_rate_option_e.automatic "junk")
    (sample_session true) = parsed_config sample_config.
Proof.
  apply (parse_configuration_without_manual LP64 wrap_uint
           (sample_video config_option_e.ensure_active resolution_option_e.automatic "junk"
              refresh_rate_option_e.automatic "junk")
           (sample_session true) DevicePreparation.EnsureActive).
  - reflexivity.
  - discriminate.
  - discriminate.
  - intros _ _. split; discriminate.
  - intros _. discriminate.
Defined.

Lemma parse_configuration_manual_witness :
  parse_configuration LLP64 wrap_uint
    (sample_video config_option_e.verify_only resolution_option_e.manual " 1280x720"
       refresh_rate_option_e.manual "59.94")
    (sample_session true) =
  parsed_config
    {| m_device_id := "DISPLAY1";
       m_device_prep := DevicePreparation.VerifyOnly;
       m_resolution := Some {| m_width := 1280; m_height := 720 |};
       m_refresh_rate := Some {| m_numerator := 5994; m_denominator := 100 |};
       m_hdr_state := Some HdrState.Enabled |}.
Proof.
  apply (parse_configuration_manual LLP64 wrap_uint
           (sample_video config_option_e.verify_only resolution_option_e.manual " 1280x720"
              refresh_rate_option_e.manual "59.94")
           (sample_session true) DevicePreparation.VerifyOnly "1280" "720"
           {| m_numerator := 5994; m_denominator := 100 |}).
  - reflexivity.
  - reflexivity.
  - reflexivity.
  - reflexivity.
  - split; reflexivity.
  - split; reflexivity.
  - reflexivity.
  - vm_compute. discriminate.
  - vm_compute. discriminate.
  - reflexivity.
Defined.

Lemma parse_configuration_ranges_witness :
  0 <= 2560 <= UINT_MAX /\ 0 <= 1440 <= UINT_MAX.
Proof.
  apply (proj1 (parse_configuration_ranges LLP64 wrap_uint
                  (sample_video config_option_e.ensure_active resolution_option_e.automatic ""
                     refresh_rate_option_e.automatic "")
                  (sample_session true) sample_config
                  ltac:(vm_compute; split; discriminate)
                  ltac:(vm_compute; split; discriminate)
                  ltac:(vm_compute; split; discriminate)
                  eq_refl)
           {| m_width := 2560; m_height := 1440 |} eq_refl).
Defined.

(** * Further properties of the orchestrator *)

(** ** The mutex *)

Lemma mutex_after_app (a b : list event) (held : bool) :
  mutex_after held (a ++ b) =
    match mutex_after held a with
    | Some held' => mutex_after held' b
    | None => None
    end.
Proof.
  revert held. induction a as [|e a IH]; intro held; [reflexivity |].
  destruct e; cbn [app mutex_after]; try apply IH; destruct held; auto.
Qed.

Lemma lock_free_nil : lock_free [].
Proof. intro held. reflexivity. Qed.

Lemma lock_free_app (a b : list event) : lock_free a -> lock_free b -> lock_free (a ++ b).
Proof. intros Ha Hb held. now rewrite mutex_after_app, Ha. Qed.

Lemma bracketed_app (a b : list event) : bracketed a -> bracketed b -> bracketed (a ++ b).
Proof. unfold bracketed. intros Ha Hb. now rewrite mutex_after_app, Ha. Qed.

Lemma bracketed_locked (es : list event) :
  lock_free es -> bracketed (ev_lock :: es ++ [ev_unlock]).
Proof.
  intro L. unfold bracketed. cbn [mutex_after]. now rewrite mutex_after_app, L.
Qed.

Section MutexDiscipline.

Variable dm : data_model.
Variable double_to_uint_out_of_range : Z -> Z.

Context {D : Type} `{SettingsManagerInterface D}.

Variable platform_settings_manager : option (string -> option Z -> D).
Variable getDisplayName : D -> string -> string.
Variable resetPersistence : D -> bool * D.

Lemma adds_events_ret {A : Type} (P : list event -> Prop) (a : A) :
  P [] -> adds_events P (ret (D := D) a).
Proof. intros Hn w. exists []. cbn. now rewrite app_nil_r. Qed.

Lemma adds_events_bind {A B : Type} (P : list event -> Prop)
    (c : M D A) (k : A -> M D B) :
  (forall a b, P a -> P b -> P (a ++ b)%list) ->
  adds_events P c -> (forall a, adds_events P (k a)) -> adds_events P (bind c k).
Proof.
  intros Happ Hc Hk w. unfold bind.
  destruct (Hc w) as (es1 & E1 & P1). destruct (c w) as [a w1]. cbn [snd] in E1.
  destruct (Hk a w1) as (es2 & E2 & P2).
  exists (es1 ++ es2)%list. rewrite E2, E1, app_assoc. auto.
Qed.

Lemma adds_events_emit (P : list event -> Prop) (e : event) :
  P [e] -> adds_events P (emit (D := D) e).
Proof. intros He w. exists [e]. auto. Qed.

Lemma adds_events_emit_all (P : list event -> Prop) (es : list event) :
  P es -> adds_events P (emit_all (D := D) es).
Proof. intros He w. exists es. now rewrite emit_all_trace. Qed.

Lemma adds_events_silent {A : Type} (P : list event -> Prop) (c : M D A) :
  P [] -> (forall w, trace (snd (c w)) = trace w) -> adds_events P c.
Proof. intros Hn Hc w. exists []. now rewrite Hc, app_nil_r. Qed.

Lemma exec_lock_free (exec_fn : retry_function) (iface : D) :
  lock_free (fst (fst (exec exec_fn iface))).
Proof.
  destruct exec_fn as [try_once | config]; unfold exec.
  - destruct (revertSettings iface) as [reverted iface'].
    destruct (reverted || try_once); intro held; reflexivity.
  - destruct (applySettings iface config) as [result iface'].
    destruct (negb (ApplyResult.eqb result ApplyResult.ApiTemporarilyUnavailable));
      intro held; reflexivity.
Qed.

Lemma schedule_lock_free (exec_fn : retry_function) (options : SchedulerOptions)
    (scheduler : RetryScheduler D) :
  lock_free (fst (schedule exec_fn options scheduler)).
Proof.
  unfold schedule. destruct (m_execution options); [| apply lock_free_nil].
  pose proof (exec_lock_free exec_fn (m_iface scheduler)) as L.
  now destruct (exec exec_fn (m_iface scheduler)) as [[calls stop_requested] iface].
Qed.

Lemma timer_iteration_lock_free (scheduler : RetryScheduler D) :
  lock_free (fst (timer_iteration scheduler)).
Proof.
  unfold timer_iteration. destruct (m_retry_function scheduler) as [exec_fn|];
    [| apply lock_free_nil].
  destruct (next_duration (m_pending_durations scheduler)) as [d rest].
  pose proof (exec_lock_free exec_fn (m_iface scheduler)) as L.
  destruct (exec exec_fn (m_iface scheduler)) as [[calls stop_requested] iface].
  intro held. cbn [fst mutex_after]. apply L.
Qed.

Lemma revert_configuration_unlocked_lock_free (option : revert_option_e.t) :
  adds_events lock_free (revert_configuration_unlocked (D := D) option).
Proof.
  intro w. unfold revert_configuration_unlocked, bind, get_sm_instance,
    get_config_revert_delay.
  destruct (DD_DATA_sm_instance w) as [scheduler|].
  - rewrite sm_instance_schedule_world. cbn [snd trace]. eexists. split; [reflexivity |].
    intro held. cbn [mutex_after]. apply schedule_lock_free.
  - exists []. cbn. rewrite app_nil_r. split; [reflexivity | apply lock_free_nil].
Qed.

Lemma timer_round_lock_free : adds_events lock_free (timer_round (D := D)).
Proof.
  intro w. destruct (DD_DATA_sm_instance w) as [scheduler|] eqn:E.
  - rewrite (timer_round_world w scheduler E). cbn [snd trace]. eexists.
    split; [reflexivity | apply timer_iteration_lock_free].
  - unfold timer_round, bind, get_sm_instance. rewrite E. exists []. cbn.
    rewrite app_nil_r. split; [reflexivity | apply lock_free_nil].
Qed.

Lemma adds_events_seq {A B : Type} (h1 h2 h3 : bool) (c : M D A) (k : A -> M D B) :
  adds_events (mutex_from_to h1 h2) c ->
  (forall a, adds_events (mutex_from_to h2 h3) (k a)) ->
  adds_events (mutex_from_to h1 h3) (bind c k).
Proof.
  intros Hc Hk w. unfold bind.
  destruct (Hc w) as (es1 & E1 & P1). destruct (c w) as [a w1]. cbn [snd] in E1.
  destruct (Hk a w1) as (es2 & E2 & P2).
  exists (es1 ++ es2)%list. rewrite E2, E1, app_assoc. split; [reflexivity |].
  unfold mutex_from_to in *. now rewrite mutex_after_app, P1.
Qed.

Lemma adds_events_lock_free {A : Type} (h : bool) (c : M D A) :
  adds_events lock_free c -> adds_events (mutex_from_to h h) c.
Proof.
  intros Hc w. destruct (Hc w) as (es & E & L). exists es. split; [exact E | apply L].
Qed.

Lemma lock_takes : adds_events (mutex_from_to false true) (lock (D := D)).
Proof. intro w. exists [ev_lock]. split; reflexivity. Qed.

Lemma unlock_releases : adds_events (mutex_from_to true false) (unlock (D := D)).
Proof. intro w. exists [ev_unlock]. split; reflexivity. Qed.

Lemma ret_lock_free {A : Type} (a : A) : adds_events lock_free (ret (D := D) a).
Proof. apply adds_events_ret, lock_free_nil. Qed.

Lemma get_sm_instance_lock_free : adds_events lock_free (get_sm_instance (D := D)).
Proof. apply adds_events_silent; [apply lock_free_nil | reflexivity]. Qed.

Lemma put_sm_instance_lock_free (sm : option (RetryScheduler D)) :
  adds_events lock_free (put_sm_instance sm).
Proof. apply adds_events_silent; [apply lock_free_nil | reflexivity]. Qed.

Lemma set_config_revert_delay_lock_free (ms : Z) :
  adds_events lock_free (set_config_revert_delay (D := D) ms).
Proof. intro w. exists [ev_config_revert_delay ms]. split; [reflexivity | intro; reflexivity]. Qed.

Lemma set_sm_instance_lock_free (sm : option (RetryScheduler D)) :
  adds_events lock_free (set_sm_instance sm).
Proof.
  intro w. eexists. split; [reflexivity | intro; reflexivity].
Qed.

Lemma make_settings_manager_lock_free (persistence_filepath : string)
    (video_config : video_t) :
  adds_events lock_free
    (make_settings_manager platform_settings_manager persistence_filepath video_config).
Proof.
  intro w. eexists. split; [reflexivity | intro; reflexivity].
Qed.

Lemma sm_instance_schedule_lock_free (scheduler : RetryScheduler D)
    (exec_fn : retry_function) (options : SchedulerOptions) :
  adds_events lock_free (sm_instance_schedule scheduler exec_fn options).
Proof.
  intro w. rewrite sm_instance_schedule_world. cbn [snd trace]. eexists.
  split; [reflexivity |]. intro held. cbn [mutex_after]. apply schedule_lock_free.
Qed.

Lemma sm_instance_execute_reset_lock_free (scheduler : RetryScheduler D) :
  adds_events lock_free (sm_instance_execute_reset resetPersistence scheduler).
Proof.
  intro w. unfold sm_instance_execute_reset, bind, emit.
  destruct (resetPersistence (m_iface scheduler)) as [result iface].
  cbn. rewrite <- app_assoc.
  eexists. split; [reflexivity | intro; reflexivity].
Qed.

(** Every operation takes the mutex free and leaves it free. *)
Lemma run_operation_bracketed (op : operation) :
  adds_events bracketed
    (run_operation dm double_to_uint_out_of_range platform_settings_manager
       getDisplayName resetPersistence op).
Proof.
  assert (Body : forall (A : Type) (body : M D A),
            adds_events lock_free body ->
            adds_events (mutex_from_to true true) body)
    by (intros A body; apply adds_events_lock_free).
  assert (Finish : forall (A : Type) (a : A),
            adds_events (mutex_from_to false false) (ret (D := D) a))
    by (intros A a; apply adds_events_lock_free, ret_lock_free).
  assert (Revert : adds_events bracketed (revert_configuration (D := D))).
  { unfold revert_configuration.
    eapply adds_events_seq; [apply lock_takes | intro].
    eapply adds_events_seq; [| intro; apply unlock_releases].
    apply Body, revert_configuration_unlocked_lock_free. }
  assert (Configure : forall config,
            adds_events bracketed (configure_display_config (D := D) config)).
  { intro config. unfold configure_display_config.
    eapply adds_events_seq; [apply lock_takes | intro].
    eapply adds_events_seq; [apply Body, get_sm_instance_lock_free | intros [scheduler|]].
    - eapply adds_events_seq; [| intro; apply unlock_releases].
      apply Body, sm_instance_schedule_lock_free.
    - eapply adds_events_seq; [| intro; apply unlock_releases].
      apply Body, ret_lock_free. }
  unfold bracketed. destruct op; cbn [run_operation].
  - unfold init.
    eapply adds_events_seq; [apply lock_takes | intro].
    eapply adds_events_seq;
      [apply Body, revert_configuration_unlocked_lock_free | intro].
    eapply adds_events_seq; [apply Body, set_config_revert_delay_lock_free | intro].
    eapply adds_events_seq; [apply Body, set_sm_instance_lock_free | intro].
    eapply adds_events_seq;
      [apply Body, make_settings_manager_lock_free | intros [iface|]].
    + eapply adds_events_seq; [| intro; apply unlock_releases].
      apply Body.
      repeat first
        [ apply revert_configuration_unlocked_lock_free
        | apply set_sm_instance_lock_free
        | apply ret_lock_free
        | apply adds_events_emit; intro; reflexivity
        | apply adds_events_bind; [apply lock_free_app | | intro] ].
    + eapply adds_events_seq; [apply Body, ret_lock_free | intro; apply unlock_releases].
  - unfold deinit.
    eapply adds_events_seq; [apply lock_takes | intro].
    eapply adds_events_seq;
      [apply Body, revert_configuration_unlocked_lock_free | intro].
    eapply adds_events_seq; [| intro; apply unlock_releases].
    apply Body, set_sm_instance_lock_free.
  - eapply adds_events_seq; [| intro; apply Finish].
    unfold map_output_name.
    eapply adds_events_seq; [apply lock_takes | intro].
    eapply adds_events_seq; [apply Body, get_sm_instance_lock_free | intros [scheduler|]].
    + eapply adds_events_seq; [apply Body, ret_lock_free | intro].
      eapply adds_events_seq; [apply unlock_releases | intro; apply Finish].
    + eapply adds_events_seq; [apply Body, ret_lock_free | intro].
      eapply adds_events_seq; [apply unlock_releases | intro; apply Finish].
  - unfold configure_display.
    destruct (parse_configuration dm double_to_uint_out_of_range video_config session).
    + apply Finish.
    + apply Revert.
    + apply Configure.
  - apply Configure.
  - apply Revert.
  - eapply adds_events_seq; [| intro; apply Finish].
    unfold reset_persistence.
    eapply adds_events_seq; [apply lock_takes | intro].
    eapply adds_events_seq; [apply Body, get_sm_instance_lock_free | intros [scheduler|]].
    + eapply adds_events_seq;
        [apply Body, sm_instance_execute_reset_lock_free | intro].
      eapply adds_events_seq; [apply unlock_releases | intro; apply Finish].
    + eapply adds_events_seq; [apply Body, ret_lock_free | intro].
      eapply adds_events_seq; [apply unlock_releases | intro; apply Finish].
  - apply (adds_events_lock_free false), timer_round_lock_free.
Qed.

(** X15. [DD_DATA.mutex] is a non-recursive mutex: in every sequence of top-level
    calls and timer rounds it is taken only while free and released only while
    held, and it is free again at the end. In particular the session-level
    [configure_display] does not hold it when it calls [revert_configuration]
    or [configure_display], and [init] uses the unlocked revert. *)
Theorem mutex_never_taken_twice (ops : list operation) (w : world D) :
  mutex_after false (trace w) = Some false ->
  mutex_after false
    (trace (snd (run_operations dm double_to_uint_out_of_range platform_settings_manager
                   getDisplayName resetPersistence ops w))) = Some false.
Proof.
  revert w. induction ops as [|op ops IH]; intros w Hw; [exact Hw |].
  cbn [run_operations]. unfold bind.
  destruct (run_operation_bracketed op w) as (es & E & B).
  destruct (run_operation _ _ _ _ _ op w) as [u w1]. cbn [snd] in E.
  apply IH. rewrite E, mutex_after_app, Hw. exact B.
Qed.

End MutexDiscipline.

Lemma mutex_never_taken_twice_witness :
  mutex_after false
    (trace (snd (run_operations LLP64 wrap_uint
                   (Some (fun _ _ => {| apply_script := []; revert_script := [false] |}))
                   (fun _ name => name) (fun d => (true, d))
                   [op_init "state.json"
                      (sample_video config_option_e.ensure_active
                         resolution_option_e.automatic "" refresh_rate_option_e.automatic "");
                    op_configure_display
                      (sample_video config_option_e.ensure_active
                         resolution_option_e.automatic "" refresh_rate_option_e.automatic "")
                      (sample_session true);
                    op_timer_round;
                    op_configure_display
                      (sample_video config_option_e.disabled
                         resolution_option_e.automatic "" refresh_rate_option_e.automatic "")
                      (sample_session true);
                    op_reset_persistence;
                    op_deinit]
                   (sample_world 0 [] [])))) = Some false.
Proof. apply mutex_never_taken_twice. reflexivity. Defined.

(** ** Runs of the retry loop *)

Section RetryRuns.

Context {D : Type} `{SettingsManagerInterface D}.

Lemma stop_requests_app (a b : list event) :
  stop_requests (a ++ b) = (stop_requests a + stop_requests b)%nat.
Proof.
  induction a as [|e a IH]; [reflexivity |].
  destruct e; cbn [app stop_requests]; now rewrite IH.
Qed.

Lemma exec_stop_requests (exec_fn : retry_function) (iface : D) :
  stop_requests (fst (fst (exec exec_fn iface))) =
    if snd (fst (exec exec_fn iface)) then 1%nat else 0%nat.
Proof.
  destruct exec_fn as [try_once | config]; unfold exec.
  - destruct (revertSettings iface) as [reverted iface'].
    now destruct (reverted || try_once).
  - destruct (applySettings iface config) as [result iface'].
    now destruct (negb (ApplyResult.eqb result ApplyResult.ApiTemporarilyUnavailable)).
Qed.

(** A loop on a fixed interval whose closure asks to stop at its [n+1]-th run
    and not before: [n+1] rounds make [n+1] attempts and one stop request, and
    further rounds add nothing. *)
Lemma timer_rounds_until_stop (every : Z) (exec_fn : retry_function) (n : nat) :
  forall (w : world D) (scheduler : RetryScheduler D) (more : nat),
    DD_DATA_sm_instance w = Some scheduler ->
    m_retry_function scheduler = Some exec_fn ->
    m_pending_durations scheduler = [every] ->
    (forall i, (i < n)%nat ->
       snd (fst (exec exec_fn (iface_after exec_fn (m_iface scheduler) i))) = false) ->
    snd (fst (exec exec_fn (iface_after exec_fn (m_iface scheduler) n))) = true ->
    exists es,
      snd (timer_rounds (S n + more) w) =
        {| DD_DATA_config_revert_delay := DD_DATA_config_revert_delay w;
           DD_DATA_sm_instance :=
             Some (stopped (iface_after exec_fn (m_iface scheduler) (S n)));
           trace := (trace w ++ es)%list |}
      /\ sleeps es = repeat every (S n)
      /\ attempts es = S n
      /\ stop_requests es = 1%nat.
Proof.
  induction n as [|n IH]; intros w scheduler more Es Er Ep Hgo Hstop.
  - cbn [Nat.add]. rewrite timer_rounds_succ.
    rewrite (timer_round_running w scheduler exec_fn Es Er), Ep.
    cbn [iface_after] in *.
    destruct (exec_one_attempt exec_fn (m_iface scheduler)) as [S0 A1].
    pose proof (exec_stop_requests exec_fn (m_iface scheduler)) as R1.
    destruct (exec exec_fn (m_iface scheduler)) as [[calls stop_requested] iface].
    cbn [fst snd next_duration] in *. subst stop_requested.
    erewrite timer_rounds_stopped; [| reflexivity ..].
    exists (ev_sleep every :: calls). cbn [snd sleeps attempts stop_requests repeat].
    rewrite S0, A1, R1. auto.
  - cbn [Nat.add]. rewrite timer_rounds_succ.
    rewrite (timer_round_running w scheduler exec_fn Es Er), Ep.
    destruct (exec_one_attempt exec_fn (m_iface scheduler)) as [S0 A1].
    pose proof (exec_stop_requests exec_fn (m_iface scheduler)) as R1.
    pose proof (Hgo O ltac:(lia)) as G0. cbn [iface_after] in G0, Hstop.
    assert (Hgo' : forall i, (i < n)%nat ->
              snd (fst (exec exec_fn
                          (iface_after exec_fn (snd (exec exec_fn (m_iface scheduler))) i)))
              = false).
    { intros i Hi. apply (Hgo (S i)). lia. }
    change (iface_after exec_fn (m_iface scheduler) (S (S n)))
      with (iface_after exec_fn (snd (exec exec_fn (m_iface scheduler))) (S n)).
    destruct (exec exec_fn (m_iface scheduler)) as [[calls stop_requested] iface].
    cbn [fst snd next_duration] in *. subst stop_requested.
    match goal with
    | |- context [timer_rounds _ ?w0] =>
        destruct (IH w0 _ more eq_refl eq_refl eq_refl Hgo' Hstop)
          as (es & E & Hs & Ha & Hr)
    end.
    cbn [Nat.add] in E.
    exists (ev_sleep every :: calls ++ es)%list. rewrite E.
    cbn [DD_DATA_config_revert_delay trace sleeps attempts stop_requests repeat m_iface].
    rewrite sleeps_app, attempts_app, stop_requests_app, S0, A1, R1, Hs, Ha, Hr.
    rewrite <- app_assoc. cbn [app Nat.add]. auto.
Qed.

(** X16. [configure_display] of a configuration, when [applySettings] answers
    [ApiTemporarilyUnavailable] [n] times and then something else (success or
    a failure that is not transient): [n + 1] attempts are made, the first one
    in the calling thread and each other one after a sleep of the retry
    interval, the last one asks to stop, and no later timer round adds an
    event. With [n = 0] there is a single attempt and no retry. *)
Theorem configure_display_attempts
    (config : SingleDisplayConfiguration) (w : world D) (scheduler : RetryScheduler D)
    (n more : nat) :
  DD_DATA_sm_instance w = Some scheduler ->
  (forall i, (i < n)%nat ->
     fst (applySettings (iface_after (apply_function config) (m_iface scheduler) i) config)
       = ApplyResult.ApiTemporarilyUnavailable) ->
  fst (applySettings (iface_after (apply_function config) (m_iface scheduler) n) config)
    <> ApplyResult.ApiTemporarilyUnavailable ->
  exists es,
    snd (timer_rounds (n + more) (snd (configure_display_config config w))) =
      {| DD_DATA_config_revert_delay := DD_DATA_config_revert_delay w;
         DD_DATA_sm_instance :=
           Some (stopped (iface_after (apply_function config) (m_iface scheduler) (S n)));
         trace := (trace w ++ es)%list |}
    /\ sleeps es = repeat DEFAULT_RETRY_INTERVAL n
    /\ attempts es = S n
    /\ stop_requests es = 1%nat.
Proof.
  intros Es Hgo Hstop.
  assert (Stop : forall iface,
            snd (fst (exec (apply_function config) iface)) =
              negb (ApplyResult.eqb (fst (applySettings iface config))
                      ApplyResult.ApiTemporarilyUnavailable)).
  { intro iface. unfold exec. destruct (applySettings iface config) as [result iface'].
    now destruct result. }
  assert (Hgo' : forall i, (i < n)%nat ->
            snd (fst (exec (apply_function config)
                        (iface_after (apply_function config) (m_iface scheduler) i)))
            = false).
  { intros i Hi. rewrite Stop, (Hgo i Hi). reflexivity. }
  assert (Hstop' :
            snd (fst (exec (apply_function config)
                        (iface_after (apply_function config) (m_iface scheduler) n)))
            = true).
  { rewrite Stop.
    destruct (fst (applySettings _ config)); try reflexivity. now contradiction Hstop. }
  clear Hgo Hstop Stop.
  assert (Start : snd (configure_display_config config w) =
            let '(calls, stop_requested, iface) :=
              exec (apply_function config) (m_iface scheduler) in
            {| DD_DATA_config_revert_delay := DD_DATA_config_revert_delay w;
               DD_DATA_sm_instance :=
                 Some (if stop_requested then stopped iface
                       else {| m_iface := iface;
                               m_retry_function := Some (apply_function config);
                               m_pending_durations := [DEFAULT_RETRY_INTERVAL] |});
               trace := (trace w ++
                           [ev_lock;
                            ev_schedule (apply_function config)
                              {| m_sleep_durations := [DEFAULT_RETRY_INTERVAL];
                                 m_execution := Execution.Immediate |}]
                           ++ calls ++ [ev_unlock])%list |}).
  { unfold configure_display_config, bind, lock, unlock, emit, get_sm_instance.
    cbn [DD_DATA_sm_instance DD_DATA_config_revert_delay trace]. rewrite Es.
    rewrite sm_instance_schedule_world. unfold schedule. cbn [m_execution m_sleep_durations].
    destruct (exec (apply_function config) (m_iface scheduler))
      as [[calls stop_requested] iface].
    cbn [fst snd DD_DATA_sm_instance DD_DATA_config_revert_delay trace].
    rewrite <- !app_assoc. reflexivity. }
  rewrite Start. clear Start.
  destruct (exec_one_attempt (apply_function config) (m_iface scheduler)) as [S0 A1].
  pose proof (exec_stop_requests (apply_function config) (m_iface scheduler)) as R1.
  destruct n as [|n].
  - cbn [iface_after] in *.
    destruct (exec (apply_function config) (m_iface scheduler))
      as [[calls stop_requested] iface].
    cbn [fst snd] in *. subst stop_requested.
    erewrite timer_rounds_stopped; [| reflexivity ..].
    eexists. split; [reflexivity |].
    cbn [sleeps attempts stop_requests app repeat].
    rewrite sleeps_app, attempts_app, stop_requests_app.
    cbn [sleeps attempts stop_requests app repeat].
    rewrite S0, A1, R1. repeat split; lia.
  - pose proof (Hgo' O ltac:(lia)) as G0. cbn [iface_after] in G0, Hstop'.
    assert (Hgo'' : forall i, (i < n)%nat ->
              snd (fst (exec (apply_function config)
                          (iface_after (apply_function config)
                             (snd (exec (apply_function config) (m_iface scheduler))) i)))
              = false).
    { intros i Hi. apply (Hgo' (S i)). lia. }
    change (iface_after (apply_function config) (m_iface scheduler) (S (S n)))
      with (iface_after (apply_function config)
              (snd (exec (apply_function config) (m_iface scheduler))) (S n)).
    destruct (exec (apply_function config) (m_iface scheduler))
      as [[calls stop_requested] iface].
    cbn [fst snd] in *. subst stop_requested.
    match goal with
    | |- context [timer_rounds (S n + more) ?w0] =>
        destruct (timer_rounds_until_stop DEFAULT_RETRY_INTERVAL (apply_function config) n
                    w0 _ more eq_refl eq_refl eq_refl Hgo'' Hstop')
          as (es & E & Hs & Ha & Hr)
    end.
    rewrite E. cbn [DD_DATA_config_revert_delay trace m_iface].
    eexists. split; [rewrite <- !app_assoc; reflexivity |].
    cbn [sleeps attempts stop_requests app].
    rewrite !sleeps_app, !attempts_app, !stop_requests_app.
    cbn [sleeps attempts stop_requests app].
    rewrite S0, A1, R1, Hs, Ha, Hr.
    cbn [app Nat.add]. repeat split; lia.
Qed.

End RetryRuns.

Section RevertRuns.

Context {D : Type} `{SettingsManagerInterface D}.

(** The counts of a revert that fails [n] times and then succeeds: [n + 1]
    attempts, one stop request, and the sleeps of the timer. *)
Lemma revert_configuration_attempt_counts
    (w : world D) (scheduler : RetryScheduler D) (n more : nat) :
  DD_DATA_sm_instance w = Some scheduler ->
  (forall i, (i < n)%nat ->
     fst (revertSettings (iface_after (revert_function false) (m_iface scheduler) i))
       = false) ->
  fst (revertSettings (iface_after (revert_function false) (m_iface scheduler) n)) = true ->
  let delay := DD_DATA_config_revert_delay w in
  exists es,
    snd (timer_rounds ((if 0 <? delay then S n else n) + more)
           (snd (revert_configuration w))) =
      {| DD_DATA_config_revert_delay := delay;
         DD_DATA_sm_instance :=
           Some (stopped (iface_after (revert_function false) (m_iface scheduler) (S n)));
         trace := (trace w ++ es)%list |}
    /\ sleeps es =
         (if 0 <? delay then delay :: repeat DEFAULT_RETRY_INTERVAL n
          else repeat DEFAULT_RETRY_INTERVAL n)
    /\ attempts es = S n
    /\ stop_requests es = 1%nat.
Proof.
  intros Es Hgo Hstop delay.
  assert (Stop : forall iface,
            snd (fst (exec (revert_function false) iface)) = fst (revertSettings iface)).
  { intro iface. rewrite exec_revert_function. cbn. apply orb_false_r. }
  assert (Hgo' : forall i, (i < n)%nat ->
            snd (fst (exec (revert_function false)
                        (iface_after (revert_function false) (m_iface scheduler) i)))
            = false).
  { intros i Hi. rewrite Stop. now apply Hgo. }
  assert (Hstop' :
            snd (fst (exec (revert_function false)
                        (iface_after (revert_function false) (m_iface scheduler) n)))
            = true).
  { now rewrite Stop. }
  clear Hgo Hstop Stop.
  rewrite (revert_configuration_world w scheduler Es). fold delay.
  destruct (exec_one_attempt (revert_function false) (m_iface scheduler)) as [S0 A1].
  pose proof (exec_stop_requests (revert_function false) (m_iface scheduler)) as R1.
  destruct (0 <? delay) eqn:Hd; unfold schedule; cbn [m_execution m_sleep_durations fst snd].
  - (* scheduled only: the timer makes every attempt *)
    cbn [Nat.add]. rewrite timer_rounds_succ.
    erewrite (timer_round_running _ _ (revert_function false)); [| reflexivity ..].
    cbn [m_iface m_pending_durations DD_DATA_config_revert_delay next_duration
           fst snd trace].
    destruct n as [|n].
    + cbn [iface_after] in *.
      destruct (exec (revert_function false) (m_iface scheduler))
        as [[calls stop_requested] iface].
      cbn [fst snd] in *. subst stop_requested.
      erewrite timer_rounds_stopped; [| reflexivity ..].
      eexists. split; [rewrite <- !app_assoc; reflexivity |].
      cbn [sleeps attempts stop_requests app repeat].
      rewrite S0, A1, R1. repeat split; lia.
    + pose proof (Hgo' O ltac:(lia)) as G0. cbn [iface_after] in G0, Hstop'.
      assert (Hgo'' : forall i, (i < n)%nat ->
                snd (fst (exec (revert_function false)
                            (iface_after (revert_function false)
                               (snd (exec (revert_function false) (m_iface scheduler))) i)))
                = false).
      { intros i Hi. apply (Hgo' (S i)). lia. }
      change (iface_after (revert_function false) (m_iface scheduler) (S (S n)))
        with (iface_after (revert_function false)
                (snd (exec (revert_function false) (m_iface scheduler))) (S n)).
      destruct (exec (revert_function false) (m_iface scheduler))
        as [[calls stop_requested] iface].
      cbn [fst snd] in *. subst stop_requested.
      match goal with
      | |- context [timer_rounds _ ?w0] =>
          destruct (timer_rounds_until_stop DEFAULT_RETRY_INTERVAL (revert_function false) n
                      w0 _ more eq_refl eq_refl eq_refl Hgo'' Hstop')
            as (es & E & Hs & Ha & Hr)
      end.
      rewrite E. cbn [DD_DATA_config_revert_delay trace m_iface].
      eexists. split; [rewrite <- !app_assoc; reflexivity |].
      cbn [sleeps attempts stop_requests app].
      rewrite !sleeps_app, !attempts_app, !stop_requests_app.
      cbn [sleeps attempts stop_requests app].
      rewrite S0, A1, R1, Hs, Ha, Hr.
      cbn [app Nat.add repeat]. repeat split; lia.
  - (* immediate: the first attempt is made by the caller *)
    destruct n as [|n].
    + cbn [iface_after] in *.
      destruct (exec (revert_function false) (m_iface scheduler))
        as [[calls stop_requested] iface].
      cbn [fst snd] in *. subst stop_requested.
      erewrite timer_rounds_stopped; [| reflexivity ..].
      eexists. split; [reflexivity |].
      cbn [sleeps attempts stop_requests app repeat].
      rewrite sleeps_app, attempts_app, stop_requests_app.
      cbn [sleeps attempts stop_requests app repeat].
      rewrite S0, A1, R1. repeat split; lia.
    + pose proof (Hgo' O ltac:(lia)) as G0. cbn [iface_after] in G0, Hstop'.
      assert (Hgo'' : forall i, (i < n)%nat ->
                snd (fst (exec (revert_function false)
                            (iface_after (revert_function false)
                               (snd (exec (revert_function false) (m_iface scheduler))) i)))
                = false).
      { intros i Hi. apply (Hgo' (S i)). lia. }
      change (iface_after (revert_function false) (m_iface scheduler) (S (S n)))
        with (iface_after (revert_function false)
                (snd (exec (revert_function false) (m_iface scheduler))) (S n)).
      destruct (exec (revert_function false) (m_iface scheduler))
        as [[calls stop_requested] iface].
      cbn [fst snd] in *. subst stop_requested.
      match goal with
      | |- context [timer_rounds _ ?w0] =>
          destruct (timer_rounds_until_stop DEFAULT_RETRY_INTERVAL (revert_function false) n
                      w0 _ more eq_refl eq_refl eq_refl Hgo'' Hstop')
            as (es & E & Hs & Ha & Hr)
      end.
      rewrite E. cbn [DD_DATA_config_revert_delay trace m_iface].
      eexists. split; [rewrite <- !app_assoc; reflexivity |].
      cbn [sleeps attempts stop_requests app].
      rewrite !sleeps_app, !attempts_app, !stop_requests_app.
      cbn [sleeps attempts stop_requests app].
      rewrite S0, A1, R1, Hs, Ha, Hr.
      cbn [app Nat.add]. repeat split; lia.
Qed.

(** The events of a revert loop whose revert fails [n] times and then
    succeeds do not depend on the interface any further. *)
Lemma revert_loop_events_failed_then_reverted (n : nat) :
  forall (first every : Z) (iface : D) (more : nat),
    (forall i, (i < n)%nat ->
       fst (revertSettings (iface_after (revert_function false) iface i)) = false) ->
    fst (revertSettings (iface_after (revert_function false) iface n)) = true ->
    revert_loop_events first every iface (S n + more) = failed_then_reverted first every n.
Proof.
  induction n as [|n IH]; intros first every iface more Hgo Hstop.
  - cbn [iface_after] in Hstop. cbn [Nat.add revert_loop_events failed_then_reverted].
    destruct (revertSettings iface) as [reverted iface']. cbn [fst] in Hstop.
    now subst reverted.
  - pose proof (Hgo O ltac:(lia)) as G0. cbn [iface_after] in G0, Hstop.
    rewrite exec_revert_function in Hstop. cbn [snd] in Hstop.
    cbn [Nat.add revert_loop_events failed_then_reverted].
    destruct (revertSettings iface) as [reverted iface'] eqn:R. cbn [fst snd] in *.
    subst reverted. do 2 f_equal.
    apply (IH every every iface' more); [| exact Hstop].
    intros i Hi. pose proof (Hgo (S i) ltac:(lia)) as G. cbn [iface_after] in G.
    rewrite exec_revert_function, R in G. exact G.
Qed.

(** X17. [revert_configuration], when [revertSettings] fails [n] times and then
    succeeds: the events are given exactly. With a configured delay above zero
    the call only schedules, and the timer sleeps the delay, attempts, and
    after each failure sleeps the retry interval and attempts again; otherwise
    the first attempt is made in the calling thread between the scheduling and
    the release of the mutex, and the timer sleeps the retry interval before
    each later attempt. Every attempt of the timer follows its sleep, the
    successful attempt asks to stop, and nothing is added after it however
    many rounds follow: [n + 1] attempts are made in all. *)
Theorem revert_configuration_attempts
    (w : world D) (scheduler : RetryScheduler D) (n more : nat) :
  DD_DATA_sm_instance w = Some scheduler ->
  (forall i, (i < n)%nat ->
     fst (revertSettings (iface_after (revert_function false) (m_iface scheduler) i))
       = false) ->
  fst (revertSettings (iface_after (revert_function false) (m_iface scheduler) n)) = true ->
  let delay := DD_DATA_config_revert_delay w in
  let es :=
    if 0 <? delay
    then ([ev_lock;
           ev_schedule (revert_function false)
             {| m_sleep_durations := [delay; DEFAULT_RETRY_INTERVAL];
                m_execution := Execution.ScheduledOnly |};
           ev_unlock] ++ failed_then_reverted delay DEFAULT_RETRY_INTERVAL n)%list
    else match n with
         | O => [ev_lock;
                 ev_schedule (revert_function false)
                   {| m_sleep_durations := [DEFAULT_RETRY_INTERVAL];
                      m_execution := Execution.Immediate |};
                 ev_revertSettings true;
                 ev_requestStop;
                 ev_unlock]
         | S n' => ([ev_lock;
                     ev_schedule (revert_function false)
                       {| m_sleep_durations := [DEFAULT_RETRY_INTERVAL];
                          m_execution := Execution.Immediate |};
                     ev_revertSettings false;
                     ev_unlock]
                      ++ failed_then_reverted DEFAULT_RETRY_INTERVAL DEFAULT_RETRY_INTERVAL
                           n')%list
         end in
  snd (timer_rounds ((if 0 <? delay then S n else n) + more)
         (snd (revert_configuration w))) =
    {| DD_DATA_config_revert_delay := delay;
       DD_DATA_sm_instance :=
         Some (stopped (iface_after (revert_function false) (m_iface scheduler) (S n)));
       trace := (trace w ++ es)%list |}
  /\ sleeps es =
       (if 0 <? delay then delay :: repeat DEFAULT_RETRY_INTERVAL n
        else repeat DEFAULT_RETRY_INTERVAL n)
  /\ attempts es = S n
  /\ stop_requests es = 1%nat.
Proof.
  intros Es Hgo Hstop delay es.
  destruct (revert_configuration_attempt_counts w scheduler n more Es Hgo Hstop)
    as (es0 & E & Hs & Ha & Hr).
  fold delay in E, Hs.
  assert (Ees : es0 = es).
  { pose proof (revert_configuration_timer_trace w scheduler
                  ((if 0 <? delay then S n else n) + more) Es) as T.
    cbv zeta in T. fold delay in T. rewrite E in T. cbn [trace] in T.
    rewrite (revert_configuration_world w scheduler Es) in T. fold delay in T.
    cbn [trace] in T. rewrite <- app_assoc in T. apply app_inv_head in T.
    rewrite T. unfold es. clear T E Hs Ha Hr.
    destruct (0 <? delay) eqn:Hd; unfold schedule; cbn [m_execution m_sleep_durations fst snd].
    - rewrite (revert_loop_events_failed_then_reverted n _ _ _ more Hgo Hstop).
      reflexivity.
    - destruct n as [|n].
      + cbn [iface_after] in Hstop.
        destruct (revertSettings (m_iface scheduler)) as [reverted iface] eqn:R.
        cbn [fst] in Hstop. subst reverted.
        rewrite (exec_revert_false _ _ _ R). reflexivity.
      + pose proof (Hgo O ltac:(lia)) as G0. cbn [iface_after] in G0, Hstop.
        rewrite exec_revert_function in Hstop. cbn [snd] in Hstop.
        destruct (revertSettings (m_iface scheduler)) as [reverted iface] eqn:R.
        cbn [fst snd] in *. subst reverted.
        rewrite (exec_revert_false _ _ _ R). cbn [fst snd].
        rewrite (revert_loop_events_failed_then_reverted n _ _ iface more); [reflexivity | | exact Hstop].
        intros i Hi. pose proof (Hgo (S i) ltac:(lia)) as G. cbn [iface_after] in G.
        rewrite exec_revert_function, R in G. exact G. }
  subst es0. exact (conj E (conj Hs (conj Ha Hr))).
Qed.

End RevertRuns.

(** ** Without a scheduler, cancelling, and what the timer runs *)

Section SchedulerPresence.

Variable dm : data_model.
Variable double_to_uint_out_of_range : Z -> Z.

Context {D : Type} `{SettingsManagerInterface D}.

Variable platform_settings_manager : option (string -> option Z -> D).
Variable getDisplayName : D -> string -> string.
Variable resetPersistence : D -> bool * D.

Lemma scheduled_app (a b : list event) : scheduled (a ++ b) = (scheduled a ++ scheduled b)%list.
Proof.
  induction a as [|e a IH]; [reflexivity |].
  destruct e; cbn [app scheduled]; now rewrite IH.
Qed.

Lemma idle_app (a b : list event) : idle a -> idle b -> idle (a ++ b).
Proof.
  unfold idle. intros (A1 & A2 & A3 & A4) (B1 & B2 & B3 & B4).
  rewrite scheduled_app, attempts_app, sleeps_app, stop_requests_app.
  rewrite A1, A2, A3, A4, B1, B2, B3, B4. auto.
Qed.

Lemma run_operation_without_scheduler (op : operation) (w : world D) :
  DD_DATA_sm_instance w = None -> is_init op = false ->
  exists es,
    snd (run_operation dm double_to_uint_out_of_range platform_settings_manager
           getDisplayName resetPersistence op w) =
      {| DD_DATA_config_revert_delay := DD_DATA_config_revert_delay w;
         DD_DATA_sm_instance := None;
         trace := (trace w ++ es)%list |}
    /\ idle es.
Proof.
  intros Es Hop.
  assert (Quiet : {| DD_DATA_config_revert_delay := DD_DATA_config_revert_delay w;
                     DD_DATA_sm_instance := None;
                     trace := (trace w ++ [])%list |} = w).
  { rewrite app_nil_r, <- Es. now destruct w. }
  assert (Revert : exists es,
            snd (revert_configuration w) =
              {| DD_DATA_config_revert_delay := DD_DATA_config_revert_delay w;
                 DD_DATA_sm_instance := None;
                 trace := (trace w ++ es)%list |} /\ idle es).
  { exists [ev_lock; ev_unlock]. split; [| repeat split].
    unfold revert_configuration, revert_configuration_unlocked, bind, lock, unlock,
      get_sm_instance, emit, ret.
    cbn [DD_DATA_sm_instance DD_DATA_config_revert_delay trace]. rewrite Es.
    cbn. now rewrite <- app_assoc. }
  assert (Configure : forall config, exists es,
            snd (configure_display_config config w) =
              {| DD_DATA_config_revert_delay := DD_DATA_config_revert_delay w;
                 DD_DATA_sm_instance := None;
                 trace := (trace w ++ es)%list |} /\ idle es).
  { intro config. exists [ev_lock; ev_unlock]. split; [| repeat split].
    unfold configure_display_config, bind, lock, unlock, get_sm_instance, emit, ret.
    cbn [DD_DATA_sm_instance DD_DATA_config_revert_delay trace]. rewrite Es.
    cbn. now rewrite <- app_assoc. }
  destruct op; cbn [run_operation]; try discriminate Hop.
  - exists [ev_lock; ev_sm_instance false; ev_unlock]. split; [| repeat split].
    unfold deinit, revert_configuration_unlocked, set_sm_instance, put_sm_instance, bind,
      lock, unlock, get_sm_instance, emit, ret.
    cbn [DD_DATA_sm_instance DD_DATA_config_revert_delay trace]. rewrite Es.
    cbn. now rewrite <- !app_assoc.
  - exists [ev_lock; ev_unlock]. split; [| repeat split].
    unfold map_output_name, bind, lock, unlock, get_sm_instance, emit, ret.
    cbn [DD_DATA_sm_instance DD_DATA_config_revert_delay trace]. rewrite Es.
    cbn. now rewrite <- app_assoc.
  - unfold configure_display.
    destruct (parse_configuration dm double_to_uint_out_of_range video_config session).
    + exists []. split; [now rewrite Quiet | repeat split].
    + exact Revert.
    + apply Configure.
  - apply Configure.
  - exact Revert.
  - exists [ev_lock; ev_unlock]. split; [| repeat split].
    unfold reset_persistence, bind, lock, unlock, get_sm_instance, emit, ret.
    cbn [DD_DATA_sm_instance DD_DATA_config_revert_delay trace]. rewrite Es.
    cbn. now rewrite <- app_assoc.
  - exists []. split; [| repeat split].
    rewrite Quiet. unfold timer_round, bind, get_sm_instance. now rewrite Es.
Qed.

(** X18. Without a scheduler (the platform has no settings manager, or the
    handle of [init] was released) no sequence of calls other than [init] does
    anything but take and release the lock: nothing is scheduled, nothing is
    attempted, and the global data stay as they are; [map_output_name] gives
    the name back and [reset_persistence] reports success. *)
Theorem without_scheduler_nothing_happens (ops : list operation) (w : world D) :
  DD_DATA_sm_instance w = None ->
  forallb (fun op => negb (is_init op)) ops = true ->
  (exists es,
     snd (run_operations dm double_to_uint_out_of_range platform_settings_manager
            getDisplayName resetPersistence ops w) =
       {| DD_DATA_config_revert_delay := DD_DATA_config_revert_delay w;
          DD_DATA_sm_instance := None;
          trace := (trace w ++ es)%list |}
     /\ idle es)
  /\ (forall output_name, fst (map_output_name getDisplayName output_name w) = output_name)
  /\ fst (reset_persistence resetPersistence w) = true.
Proof.
  intros Es Hops. split; [| split].
  - revert w Es. induction ops as [|op ops IH]; intros w Es.
    + exists []. rewrite app_nil_r. split; [rewrite <- Es; now destruct w | repeat split].
    + cbn [forallb] in Hops. apply andb_true_iff in Hops as [Hop Hops].
      apply negb_true_iff in Hop.
      destruct (run_operation_without_scheduler op w Es Hop) as (es1 & E1 & I1).
      cbn [run_operations]. unfold bind.
      destruct (run_operation _ _ _ _ _ op w) as [u w1]. cbn [snd] in E1. subst w1.
      match goal with
      | |- context [run_operations _ _ _ _ _ ops ?w1] =>
          destruct (IH Hops w1 eq_refl) as (es2 & E2 & I2)
      end.
      exists (es1 ++ es2)%list. rewrite E2. cbn [DD_DATA_config_revert_delay trace].
      rewrite app_assoc. split; [reflexivity | now apply idle_app].
  - intro output_name.
    unfold map_output_name, bind, lock, unlock, get_sm_instance, emit, ret.
    cbn [DD_DATA_sm_instance]. now rewrite Es.
  - unfold reset_persistence, bind, lock, unlock, get_sm_instance, emit, ret.
    cbn [DD_DATA_sm_instance]. now rewrite Es.
Qed.

(** X19. [reset_persistence] with a scheduler: under the mutex the stop
    request comes first, before the call of [resetPersistence], and ends
    whatever retry loop is in flight; then the persisted state is reset and
    the result of that is returned, whether it is a success or not;
    afterwards the timer has nothing to run, however many rounds it is
    given. *)
Theorem reset_persistence_cancels (w : world D) (scheduler : RetryScheduler D) (n : nat) :
  DD_DATA_sm_instance w = Some scheduler ->
  let w' :=
    {| DD_DATA_config_revert_delay := DD_DATA_config_revert_delay w;
       DD_DATA_sm_instance := Some (stopped (snd (resetPersistence (m_iface scheduler))));
       trace := (trace w ++
                   [ev_lock;
                    ev_requestStop;
                    ev_resetPersistence (fst (resetPersistence (m_iface scheduler)));
                    ev_unlock])%list |} in
  reset_persistence resetPersistence w = (fst (resetPersistence (m_iface scheduler)), w')
  /\ timer_rounds n w' = (tt, w').
Proof.
  intros Es w'. split.
  - unfold reset_persistence, sm_instance_execute_reset, bind, lock, unlock,
      get_sm_instance, emit, put_sm_instance, ret.
    cbn [DD_DATA_sm_instance DD_DATA_config_revert_delay trace]. rewrite Es.
    destruct (resetPersistence (m_iface scheduler)) as [result iface].
    cbn. unfold w'. now rewrite <- !app_assoc.
  - now apply (timer_rounds_stopped n w' _ eq_refl).
Qed.

Lemma exec_timer_events (exec_fn : retry_function) (iface : D) :
  Forall (timer_event_of exec_fn) (fst (fst (exec exec_fn iface))).
Proof.
  destruct exec_fn as [try_once | config]; unfold exec.
  - destruct (revertSettings iface) as [reverted iface'].
    destruct (reverted || try_once); cbn [fst]; repeat constructor; now exists try_once.
  - destruct (applySettings iface config) as [result iface'].
    destruct (negb (ApplyResult.eqb result ApplyResult.ApiTemporarilyUnavailable));
      cbn [fst]; repeat constructor.
Qed.

(** Whatever the timer adds comes from the closure in flight. *)
Lemma timer_rounds_events (exec_fn : retry_function) (n : nat) :
  forall (w : world D) (scheduler : RetryScheduler D),
    DD_DATA_sm_instance w = Some scheduler ->
    m_retry_function scheduler = None \/ m_retry_function scheduler = Some exec_fn ->
    exists es,
      trace (snd (timer_rounds n w)) = (trace w ++ es)%list
      /\ Forall (timer_event_of exec_fn) es.
Proof.
  induction n as [|n IH]; intros w scheduler Es Er.
  - exists []. cbn. now rewrite app_nil_r.
  - destruct Er as [Er | Er].
    + rewrite (timer_rounds_stopped (S n) w scheduler Es Er).
      exists []. cbn. now rewrite app_nil_r.
    + rewrite timer_rounds_succ, (timer_round_running w scheduler exec_fn Es Er).
      pose proof (exec_timer_events exec_fn (m_iface scheduler)) as F.
      destruct (exec exec_fn (m_iface scheduler)) as [[calls stop_requested] iface].
      cbn [fst] in F.
      match goal with
      | |- context [timer_rounds n ?w0] =>
          edestruct (IH w0) as (es & E & Fes);
            [reflexivity | destruct stop_requested; [left | right]; reflexivity |]
      end.
      rewrite E. cbn [trace].
      exists (ev_sleep (fst (next_duration (m_pending_durations scheduler))) :: calls ++ es)%list.
      split; [now rewrite <- app_assoc |].
      constructor; [exact I |]. apply Forall_app. auto.
Qed.

(** X20. A new operation replaces the one in flight: after [configure_display]
    of a configuration the timer only ever applies that configuration, and
    after [revert_configuration] it only ever reverts, whatever loop was
    running before; the timer itself never takes the lock or schedules. *)
Theorem timer_runs_last_scheduled
    (w : world D) (scheduler : RetryScheduler D) (n : nat) :
  DD_DATA_sm_instance w = Some scheduler ->
  (forall config, exists es,
      trace (snd (timer_rounds n (snd (configure_display_config config w)))) =
        (trace (snd (configure_display_config config w)) ++ es)%list
      /\ Forall (timer_event_of (apply_function config)) es)
  /\ (exists es,
        trace (snd (timer_rounds n (snd (revert_configuration w)))) =
          (trace (snd (revert_configuration w)) ++ es)%list
        /\ Forall (timer_event_of (revert_function false)) es).
Proof.
  intro Es. split.
  - intro config.
    assert (State : exists scheduler',
              DD_DATA_sm_instance (snd (configure_display_config config w)) = Some scheduler'
              /\ (m_retry_function scheduler' = None
                  \/ m_retry_function scheduler' = Some (apply_function config))).
    { unfold configure_display_config, bind, lock, unlock, emit, get_sm_instance.
      cbn [DD_DATA_sm_instance DD_DATA_config_revert_delay trace]. rewrite Es.
      rewrite sm_instance_schedule_world. cbn [snd DD_DATA_sm_instance].
      eexists. split; [reflexivity |].
      unfold schedule. cbn [m_execution].
      destruct (exec (apply_function config) (m_iface scheduler))
        as [[calls stop_requested] iface].
      destruct stop_requested; [left | right]; reflexivity. }
    destruct State as (scheduler' & Es' & Er').
    exact (timer_rounds_events (apply_function config) n _ scheduler' Es' Er').
  - assert (State : exists scheduler',
              DD_DATA_sm_instance (snd (revert_configuration w)) = Some scheduler'
              /\ (m_retry_function scheduler' = None
                  \/ m_retry_function scheduler' = Some (revert_function false))).
    { rewrite (revert_configuration_world w scheduler Es). cbn [DD_DATA_sm_instance].
      eexists. split; [reflexivity |].
      unfold schedule.
      destruct (0 <? DD_DATA_config_revert_delay w); cbn [m_execution];
        [right; reflexivity |].
      destruct (exec (revert_function false) (m_iface scheduler))
        as [[calls stop_requested] iface].
      destruct stop_requested; [left | right]; reflexivity. }
    destruct State as (scheduler' & Es' & Er').
    exact (timer_rounds_events (revert_function false) n _ scheduler' Es' Er').
Qed.

End SchedulerPresence.

Section InitThenRevert.

Context {D : Type} `{SettingsManagerInterface D}.

Lemma init_state (make : string -> option Z -> D) (persistence_filepath : string)
    (video_config : video_t) (w : world D) :
  exists (scheduler : RetryScheduler D) (events : list event),
    snd (init (Some make) persistence_filepath video_config w) =
      {| DD_DATA_config_revert_delay := config_revert_delay (dd video_config);
         DD_DATA_sm_instance := Some scheduler;
         trace := events |}
    /\ m_iface scheduler =
         snd (revertSettings
                (make persistence_filepath
                   (if wa_hdr_toggle (dd video_config) then Some 500 else None))).
Proof.
  unfold init. unfold bind at 1. unfold lock at 1. unfold emit at 1. unfold bind at 1.
  destruct (revert_configuration_unlocked revert_option_e.try_once _) as [u w1].
  unfold make_settings_manager, bind, set_config_revert_delay, set_sm_instance, bind, emit,
    put_sm_instance, sm_instance_execute, ret, unlock, emit.
  cbn [DD_DATA_config_revert_delay DD_DATA_sm_instance trace m_iface stopped].
  erewrite (revert_configuration_unlocked_immediate revert_option_e.try_indefinitely);
    [| reflexivity | discriminate].
  cbn [DD_DATA_config_revert_delay DD_DATA_sm_instance trace snd m_iface stopped
         revert_option_e.eqb].
  rewrite orb_false_r. eexists. eexists. split; [reflexivity |].
  now destruct (fst (revertSettings (make persistence_filepath _))).
Qed.

(** X21. The delay that [revert_configuration] applies is the one the last [init]
    recorded from the configuration: after [init] with a delay above zero, a
    [revert_configuration] makes no attempt in the calling thread and leaves a
    revert scheduled on the new settings manager, first after that delay and
    then on the retry interval, whether or not the revert made by [init]
    itself had succeeded. *)
Theorem init_then_revert_configuration
    (make : string -> option Z -> D) (persistence_filepath : string)
    (video_config : video_t) (w : world D) :
  0 < config_revert_delay (dd video_config) ->
  let delay := config_revert_delay (dd video_config) in
  let settings_manager :=
    make persistence_filepath
      (if wa_hdr_toggle (dd video_config) then Some 500 else None) in
  let w1 := snd (init (Some make) persistence_filepath video_config w) in
  let w2 := snd (revert_configuration w1) in
  DD_DATA_config_revert_delay w2 = delay
  /\ DD_DATA_sm_instance w2 =
       Some {| m_iface := snd (revertSettings settings_manager);
               m_retry_function := Some (revert_function false);
               m_pending_durations := [delay; DEFAULT_RETRY_INTERVAL] |}
  /\ trace w2 =
       (trace w1 ++
          [ev_lock;
           ev_schedule (revert_function false)
             {| m_sleep_durations := [delay; DEFAULT_RETRY_INTERVAL];
                m_execution := Execution.ScheduledOnly |};
           ev_unlock])%list.
Proof.
  intros Hd delay settings_manager w1 w2.
  destruct (init_state make persistence_filepath video_config w)
    as (scheduler & events & E & Ei).
  unfold w2, w1. rewrite E.
  erewrite revert_configuration_world; [| reflexivity].
  cbn [DD_DATA_config_revert_delay DD_DATA_sm_instance trace].
  fold delay. apply Z.ltb_lt in Hd. fold delay in Hd. rewrite Hd.
  unfold schedule. cbn [m_execution m_sleep_durations fst snd app].
  rewrite Ei. repeat split.
Qed.

End InitThenRevert.

(** * The audio context *)

Section AudioContextProperties.

Variable audio_ctx_ref_t : Type.
Variable get_audio_ctx_ref : audio_ctx_ref_t.

Lemma audio_refs_held_app (a b : list audio_event) :
  audio_refs_held (a ++ b) = audio_refs_held a + audio_refs_held b.
Proof.
  induction a as [|e a IH]; [reflexivity |].
  destruct e; cbn [app audio_refs_held]; rewrite IH; lia.
Qed.

Lemma audio_step_refs (this : sunshine_audio_context_t audio_ctx_ref_t) (call : audio_call) :
  audio_refs_held (audio_trace (audio_step get_audio_ctx_ref this call))
  - (if isCaptured (audio_step get_audio_ctx_ref this call) then 1 else 0)
  = audio_refs_held (audio_trace this) - (if isCaptured this then 1 else 0).
Proof.
  destruct this as [[context|] events]; destruct call;
    cbn [audio_step capture release snd isCaptured captured_context audio_trace];
    rewrite ?audio_refs_held_app; cbn [audio_refs_held]; lia.
Qed.

Lemma audio_run_app (calls : list audio_call) (call : audio_call)
    (this : sunshine_audio_context_t audio_ctx_ref_t) :
  audio_run get_audio_ctx_ref (calls ++ [call]) this =
    audio_step get_audio_ctx_ref (audio_run get_audio_ctx_ref calls this) call.
Proof. unfold audio_run. now rewrite fold_left_app. Qed.

Lemma last_change_app (calls : list audio_call) (call : audio_call)
    (seen : option audio_call) :
  last_change (calls ++ [call]) seen =
    match call with
    | call_isCaptured => last_change calls seen
    | _ => Some call
    end.
Proof.
  revert seen. induction calls as [|c calls IH]; intro seen.
  - now destruct call.
  - destruct c; cbn [app last_change]; apply IH.
Qed.

(** X22. The audio context over any sequence of calls, starting from a fresh
    object: it holds exactly one audio reference while captured and none
    otherwise, and [isCaptured] tells whether the last call that was not a
    query was a [capture]. [capture] always reports success, and what it adds
    is given exactly: on a context that is not captured it takes one
    reference; on a captured one it takes the new reference first and drops
    the old one after that, so none leaks and the session is never left
    without a reference in between. *)
Theorem audio_context_invariant (calls : list audio_call) :
  let fresh := {| captured_context := None; audio_trace := [] |} in
  let this := audio_run get_audio_ctx_ref calls fresh in
  audio_refs_held (audio_trace this) = (if isCaptured this then 1 else 0)
  /\ isCaptured this =
       match last_change calls None with
       | Some call_capture => true
       | _ => false
       end
  /\ fst (capture get_audio_ctx_ref this) = true
  /\ audio_trace (snd (capture get_audio_ctx_ref this)) =
       (audio_trace this ++
          if isCaptured this
          then [au_get_audio_ctx_ref; au_drop_audio_ctx_ref]
          else [au_get_audio_ctx_ref])%list.
Proof.
  cbv zeta. split; [| split; [| split; [reflexivity |]]];
    [| | unfold capture, isCaptured; cbn [snd audio_trace];
         now destruct (captured_context _)].
  - induction calls as [|call calls IH] using rev_ind; [reflexivity |].
    rewrite audio_run_app.
    pose proof (audio_step_refs
                  (audio_run get_audio_ctx_ref calls
                     {| captured_context := None; audio_trace := [] |}) call) as S.
    lia.
  - induction calls as [|call calls IH] using rev_ind; [reflexivity |].
    rewrite audio_run_app, last_change_app.
    destruct call; [reflexivity | exact IH | reflexivity].
Qed.

(** X23. [release] waits half a second before it lets go, also when nothing was
    captured, and a [release] right after a [capture] leaves the references
    held as they were before the two calls. *)
Theorem audio_release_after_capture (this : sunshine_audio_context_t audio_ctx_ref_t) :
  let released := release (snd (capture get_audio_ctx_ref this)) in
  isCaptured released = false
  /\ audio_refs_held (audio_trace released) =
       audio_refs_held (audio_trace this) - (if isCaptured this then 1 else 0)
  /\ exists before after,
       audio_trace (release this) = (before ++ au_sleep_for 500 :: after)%list
       /\ before = audio_trace this
       /\ audio_refs_held after = (if isCaptured this then -1 else 0).
Proof.
  cbv zeta. destruct this as [[context|] events];
    cbn [capture release snd isCaptured captured_context audio_trace];
    (split; [reflexivity |]; split;
     [rewrite !audio_refs_held_app; cbn [audio_refs_held]; lia
     | eexists; eexists; split; [reflexivity | split; reflexivity]]).
Qed.

End AudioContextProperties.

(** * Concrete instances of the further properties *)

Lemma configure_display_attempts_witness :
  exists es, sleeps es = [5000; 5000] /\ attempts es = 3%nat /\ stop_requests es = 1%nat.
Proof.
  destruct (configure_display_attempts sample_config
              (sample_world 0
                 [ApplyResult.ApiTemporarilyUnavailable; ApplyResult.ApiTemporarilyUnavailable;
                  ApplyResult.PermanentFailure; ApplyResult.Ok] [])
              (stopped {| apply_script :=
                            [ApplyResult.ApiTemporarilyUnavailable;
                             ApplyResult.ApiTemporarilyUnavailable;
                             ApplyResult.PermanentFailure; ApplyResult.Ok];
                          revert_script := [] |})
              2 3) as (es & _ & Hs & Ha & Hr).
  - reflexivity.
  - intros i Hi. destruct i as [|[|i]]; [reflexivity | reflexivity | lia].
  - discriminate.
  - exists es. exact (conj Hs (conj Ha Hr)).
Defined.

Lemma revert_configuration_attempts_witness :
  trace (snd (timer_rounds 6 (snd (revert_configuration
                                     (sample_world 3000 [] [false; true]))))) =
    [ev_lock;
     ev_schedule (revert_function false)
       {| m_sleep_durations := [3000; 5000]; m_execution := Execution.ScheduledOnly |};
     ev_unlock;
     ev_sleep 3000;
     ev_revertSettings false;
     ev_sleep 5000;
     ev_revertSettings true;
     ev_requestStop]
  /\ trace (snd (timer_rounds 5 (snd (revert_configuration
                                        (sample_world 0 [] [false; true]))))) =
       [ev_lock;
        ev_schedule (revert_function false)
          {| m_sleep_durations := [5000]; m_execution := Execution.Immediate |};
        ev_revertSettings false;
        ev_unlock;
        ev_sleep 5000;
        ev_revertSettings true;
        ev_requestStop].
Proof.
  split.
  - pose proof (revert_configuration_attempts (sample_world 3000 [] [false; true])
                  (stopped {| apply_script := []; revert_script := [false; true] |})
                  1 4 eq_refl) as P.
    cbv zeta in P. destruct P as [E _].
    + intros i Hi. destruct i as [|i]; [reflexivity | lia].
    + reflexivity.
    + apply (f_equal trace) in E. vm_compute in E. vm_compute. exact E.
  - pose proof (revert_configuration_attempts (sample_world 0 [] [false; true])
                  (stopped {| apply_script := []; revert_script := [false; true] |})
                  1 4 eq_refl) as P.
    cbv zeta in P. destruct P as [E _].
    + intros i Hi. destruct i as [|i]; [reflexivity | lia].
    + reflexivity.
    + apply (f_equal trace) in E. vm_compute in E. vm_compute. exact E.
Defined.

Lemma without_scheduler_nothing_happens_witness :
  let w : world scripted :=
    {| DD_DATA_config_revert_delay := 3000; DD_DATA_sm_instance := None; trace := [] |} in
  fst (map_output_name (fun _ name => String.append "mapped:" name) "DISPLAY1" w) = "DISPLAY1"
  /\ fst (reset_persistence (fun d => (false, d)) w) = true.
Proof.
  cbv zeta.
  destruct (proj2 (without_scheduler_nothing_happens (D := scripted) LLP64 wrap_uint None
                     (fun _ name => String.append "mapped:" name) (fun d => (false, d))
                     [op_configure_display_config sample_config; op_revert_configuration;
                      op_timer_round]
                     {| DD_DATA_config_revert_delay := 3000; DD_DATA_sm_instance := None;
                        trace := [] |}
                     eq_refl eq_refl)) as [Hm Hr].
  split; [apply Hm | exact Hr].
Defined.

Lemma reset_persistence_cancels_witness :
  fst (reset_persistence (fun d : scripted => (true, d))
         (snd (revert_configuration (sample_world 0 [] [false; false; true])))) = true
  /\ trace (snd (reset_persistence (fun d : scripted => (true, d))
                   (snd (revert_configuration (sample_world 0 [] [false; false; true]))))) =
       [ev_lock;
        ev_schedule (revert_function false)
          {| m_sleep_durations := [5000]; m_execution := Execution.Immediate |};
        ev_revertSettings false;
        ev_unlock;
        ev_lock;
        ev_requestStop;
        ev_resetPersistence true;
        ev_unlock].
Proof.
  destruct (reset_persistence_cancels (fun d : scripted => (true, d))
              (snd (revert_configuration (sample_world 0 [] [false; false; true])))
              {| m_iface := {| apply_script := []; revert_script := [false; true] |};
                 m_retry_function := Some (revert_function false);
                 m_pending_durations := [5000] |}
              5) as [E _].
  - vm_compute. reflexivity.
  - rewrite E. split; reflexivity.
Defined.

Lemma timer_runs_last_scheduled_witness :
  exists es,
    trace (snd (timer_rounds 4
                  (snd (configure_display_config sample_config
                          (snd (revert_configuration
                                  (sample_world 0
                                     [ApplyResult.ApiTemporarilyUnavailable]
                                     [false; false])))))))
    = (trace (snd (configure_display_config sample_config
                     (snd (revert_configuration
                             (sample_world 0
                                [ApplyResult.ApiTemporarilyUnavailable]
                                [false; false]))))) ++ es)%list
    /\ Forall (timer_event_of (apply_function sample_config)) es.
Proof.
  destruct (timer_runs_last_scheduled (D := scripted)
              (snd (revert_configuration
                      (sample_world 0 [ApplyResult.ApiTemporarilyUnavailable]
                         [false; false])))
              {| m_iface :=
                   {| apply_script := [ApplyResult.ApiTemporarilyUnavailable];
                      revert_script := [false] |};
                 m_retry_function := Some (revert_function false);
                 m_pending_durations := [5000] |}
              4) as [HC _].
  - vm_compute. reflexivity.
  - apply HC.
Defined.

Lemma init_then_revert_configuration_witness :
  DD_DATA_config_revert_delay
    (snd (revert_configuration
            (snd (init (Some (fun _ _ => {| apply_script := []; revert_script := [true] |}))
                    "state.json"
                    (sample_video config_option_e.ensure_active
                       resolution_option_e.automatic "" refresh_rate_option_e.automatic "")
                    (sample_world 0 [] [])))))
  = 3000.
Proof.
  apply (init_then_revert_configuration
           (fun _ _ => {| apply_script := []; revert_script := [true] |})
           "state.json"
           (sample_video config_option_e.ensure_active
              resolution_option_e.automatic "" refresh_rate_option_e.automatic "")
           (sample_world 0 [] [])).
  reflexivity.
Defined.
